(** * HypothesisAPIClient (src/hypothesis.js)

    A shallow embedding of the client class: the JavaScript values it
    handles, the session fields [token] and [links], the message
    listener of [login], the route walk of [request] and the paging loop
    of [fetchAll], followed by the properties of the specification that
    were settled on it. *)

From Stdlib Require Import ZArith List String Ascii Bool Lia.
From Stdlib Require Import DecimalString DecimalZ DecimalPos.
Import ListNotations.
Local Open Scope string_scope.
Local Open Scope list_scope.
Set Warnings "-register-all".

(** ** JavaScript values *)

Module JS.

(** What [r.json()] and [event.data] deliver, plus [undefined] and the
    built-in objects and functions that a property read can reach
    through a prototype.  Numbers are the integer-valued ones (counts,
    offsets); strings are byte strings.  An object is its list of own
    properties (the first binding of a key is the property). *)
Inductive value : Type :=
| VUndef
| VNull
| VBool (b : bool)
| VNum (n : Z)
| VStr (s : string)
| VArr (xs : list value)
| VObj (props : list (string * value))
| VBuiltin (callable : bool) (name : string).

Inductive kind := KBoolean | KNumber | KString | KArray.

(** The parts of the platform that the class uses and that are not
    fixed here: members of the prototypes other than [Object.prototype],
    properties of built-in objects, the [URL] parser and the
    string-to-number conversion. *)
Record Runtime := {
  proto_get : kind -> string -> value;
  host_get : string -> string -> value;
  host_to_string : string -> option string;
  URL_parse : string -> option string;
  StringToNumber : string -> option Z
}.

(** Exceptions and promise rejections. *)
Inductive exn :=
| TypeError
| Error (message : string)
| FetchError
| SyntaxError.

Fixpoint assoc {A : Type} (k : string) (l : list (string * A)) : option A :=
  match l with
  | [] => None
  | (k', v) :: r => if String.eqb k k' then Some v else assoc k r
  end.

(** [s.split(sep)] for a one-character separator: never the empty list. *)
Fixpoint split (sep : ascii) (s : string) : list string :=
  match s with
  | EmptyString => [EmptyString]
  | String c r =>
      if Ascii.eqb c sep then EmptyString :: split sep r
      else match split sep r with
           | h :: t => String c h :: t
           | [] => [String c EmptyString]
           end
  end.

Definition Z_to_string (z : Z) : string :=
  NilZero.string_of_int (Z.to_int z).

Definition Z_of_string (s : string) : option Z :=
  option_map Z.of_int (NilZero.int_of_string s).

(** A property key that is a canonical array index. *)
Definition index_of_key (k : string) : option nat :=
  match Z_of_string k with
  | Some z =>
      if (0 <=? z)%Z && String.eqb (Z_to_string z) k then Some (Z.to_nat z)
      else None
  | None => None
  end.

(** Truthiness, as tested by [!x] and [if (x)]. *)
Definition truthy (v : value) : bool :=
  match v with
  | VUndef | VNull => false
  | VBool b => b
  | VNum n => negb (n =? 0)%Z
  | VStr s => negb (String.eqb s "")
  | VArr _ | VObj _ | VBuiltin _ _ => true
  end.

(** [typeof v === 'object'] *)
Definition typeof_object (v : value) : bool :=
  match v with
  | VNull | VArr _ | VObj _ => true
  | VBuiltin callable _ => negb callable
  | _ => false
  end.

(** Own properties of a value. *)
Definition own (v : value) (k : string) : option value :=
  match v with
  | VObj props => assoc k props
  | VArr xs =>
      if String.eqb k "length" then Some (VNum (Z.of_nat (List.length xs)))
      else match index_of_key k with
           | Some i => nth_error xs i
           | None => None
           end
  | VStr s =>
      if String.eqb k "length" then Some (VNum (Z.of_nat (String.length s)))
      else match index_of_key k with
           | Some i => option_map (fun c => VStr (String c EmptyString)) (String.get i s)
           | None => None
           end
  | _ => None
  end.

(** The names every object inherits from [Object.prototype]. *)
Definition Object_prototype_names : list string :=
  [ "constructor"; "hasOwnProperty"; "isPrototypeOf"; "propertyIsEnumerable";
    "toLocaleString"; "toString"; "valueOf"; "__proto__";
    "__defineGetter__"; "__defineSetter__"; "__lookupGetter__"; "__lookupSetter__" ].

Definition in_Object_prototype (k : string) : bool :=
  existsb (String.eqb k) Object_prototype_names.

Definition class_of (v : value) : string :=
  match v with
  | VBool _ => "Boolean"
  | VNum _ => "Number"
  | VStr _ => "String"
  | VArr _ => "Array"
  | _ => "Object"
  end.

(** Lookup along the prototype chain of a value that has no own [k].
    A member inherited under a name of [Object.prototype] is a built-in,
    named here by the class of the value and the key: a function, or for
    [__proto__] the prototype object. *)
Definition inherited (rt : Runtime) (v : value) (k : string) : value :=
  if in_Object_prototype k
  then VBuiltin (negb (String.eqb k "__proto__")) (class_of v ++ "." ++ k)
  else match v with
       | VBool _ => proto_get rt KBoolean k
       | VNum _ => proto_get rt KNumber k
       | VStr _ => proto_get rt KString k
       | VArr _ => proto_get rt KArray k
       | _ => VUndef
       end.

(** [v[k]]: [None] is the TypeError of reading a property of [null] or
    [undefined]. *)
Definition get (rt : Runtime) (v : value) (k : string) : option value :=
  match v with
  | VUndef | VNull => None
  | VBuiltin _ h => Some (host_get rt h k)
  | _ => Some (match own v k with
               | Some x => x
               | None => inherited rt v k
               end)
  end.

Fixpoint join (sep : string) (l : list string) : string :=
  match l with
  | [] => ""
  | [s] => s
  | s :: r => s ++ sep ++ join sep r
  end.

Fixpoint sequence {A : Type} (l : list (option A)) : option (list A) :=
  match l with
  | [] => Some []
  | Some a :: r => option_map (cons a) (sequence r)
  | None :: _ => None
  end.

(** ToString, as applied by template literals, [URLSearchParams.append]
    and [new URL]; [None] is a TypeError.  An own [toString] of parsed
    data is not callable and [Object.prototype.valueOf] returns the
    object, so such an object has no primitive value. *)
Fixpoint to_string (rt : Runtime) (v : value) : option string :=
  match v with
  | VUndef => Some "undefined"
  | VNull => Some "null"
  | VBool b => Some (if b then "true" else "false")
  | VNum n => Some (Z_to_string n)
  | VStr s => Some s
  | VArr xs =>
      option_map (join ",")
        (sequence (map (fun x => match x with
                                 | VUndef | VNull => Some ""
                                 | _ => to_string rt x
                                 end) xs))
  | VObj props =>
      match assoc "toString" props with
      | Some _ => None
      | None => Some "[object Object]"
      end
  | VBuiltin _ h => host_to_string rt h
  end.

(** ToNumber of the right operand of [n < v]: [Some None] is NaN, [None]
    a TypeError. *)
Definition to_number (rt : Runtime) (v : value) : option (option Z) :=
  match v with
  | VUndef => Some None
  | VNull => Some (Some 0%Z)
  | VBool b => Some (Some (if b then 1%Z else 0%Z))
  | VNum n => Some (Some n)
  | _ => option_map (StringToNumber rt) (to_string rt v)
  end.

(** [n < v] for a number [n]. *)
Definition lt_value (rt : Runtime) (n : Z) (v : value) : option bool :=
  option_map (fun m => match m with
                       | Some z => (n <? z)%Z
                       | None => false
                       end) (to_number rt v).

(** [total === null || n < total], for the length [n] of an array. *)
Definition again (rt : Runtime) (n : nat) (total : value) : option bool :=
  match total with
  | VNull => Some true
  | _ => lt_value rt (Z.of_nat n) total
  end.

Fixpoint chars (s : string) : list value :=
  match s with
  | EmptyString => []
  | String c r => VStr (String c EmptyString) :: chars r
  end.

(** The elements that spreading [...v] yields; [None] when [v] is not
    iterable. *)
Definition spread (v : value) : option (list value) :=
  match v with
  | VArr xs => Some xs
  | VStr s => Some (chars s)
  | _ => None
  end.

End JS.

(** ** The client *)

Module Client.
Import JS.

(** A call of [fetch]: the target (for [request], the parsed URL and the
    pairs appended to its [searchParams], in order) and the init object. *)
Inductive payload :=
| NoBody
| Data (v : value)
| Form (fields : list (string * string)).

Record Request := {
  url : string;
  query : list (string * string);
  method : value;
  headers : list (string * string);
  body : payload
}.

(** What [fetch(...).then(r => r.json())] settles to. *)
Inductive response :=
| Fails
| NotJSON
| Body (v : value).

(** The fields of a [HypothesisAPIClient]. *)
Record Session := {
  serviceUrl : string;
  token : value;
  links : value
}.

(** [constructor(serviceUrl)] *)
Definition new_client (service : string) : Session :=
  {| serviceUrl := service; token := VNull; links := VNull |}.

(** Effects on the window and the network, in the order they happen.
    Of the popup only the address is kept, not its name and geometry. *)
Inductive event :=
| AddListener
| RemoveListener
| OpenWindow (target : string)
| Fetch (r : Request).

Inductive outcome (A : Type) :=
| Returns (a : A)
| Throws (e : exn)
| Unsettled.
Arguments Returns {A} a.
Arguments Throws {A} e.
Arguments Unsettled {A}.

Section Methods.

Variable rt : Runtime.

(** The service: a state machine that answers each fetch. *)
Context {S : Type}.
Variable serve : S -> Request -> response * S.

Record World := {
  this : Session;
  server : S;
  trace : list event
}.

(** Computations of the class: they read and write the world and
    return, throw (or reject), or never settle. *)
Definition M (A : Type) : Type := World -> outcome A * World.

Definition ret {A : Type} (a : A) : M A := fun w => (Returns a, w).
Definition throw {A : Type} (e : exn) : M A := fun w => (Throws e, w).
Definition never {A : Type} : M A := fun w => (Unsettled, w).

Definition bind {A B : Type} (m : M A) (f : A -> M B) : M B :=
  fun w =>
    match m w with
    | (Returns a, w') => f a w'
    | (Throws e, w') => (Throws e, w')
    | (Unsettled, w') => (Unsettled, w')
    end.

Notation "x <- m ;; k" := (bind m (fun x => k))
  (at level 61, m at next level, right associativity).
Notation "m ;;; k" := (bind m (fun _ => k))
  (at level 61, right associativity).

(** A step that throws a TypeError when it has no value. *)
Definition or_TypeError {A : Type} (o : option A) : M A :=
  match o with
  | Some a => ret a
  | None => throw TypeError
  end.

Definition self : M Session := fun w => (Returns (this w), w).

Definition emit (e : event) : M unit :=
  fun w => (Returns tt,
            {| this := this w; server := server w; trace := trace w ++ [e] |}).

Definition set_token (v : value) : M unit :=
  fun w => (Returns tt,
            {| this := {| serviceUrl := serviceUrl (this w);
                          token := v; links := links (this w) |};
               server := server w; trace := trace w |}).

Definition set_links (v : value) : M unit :=
  fun w => (Returns tt,
            {| this := {| serviceUrl := serviceUrl (this w);
                          token := token (this w); links := v |};
               server := server w; trace := trace w |}).

(** [fetch(...).then(r => r.json())] *)
Definition fetch_json (r : Request) : M value :=
  fun w =>
    let (a, s') := serve (server w) r in
    let w' := {| this := this w; server := s'; trace := trace w ++ [Fetch r] |} in
    match a with
    | Fails => (Throws FetchError, w')
    | NotJSON => (Throws SyntaxError, w')
    | Body v => (Returns v, w')
    end.

(** *** login *)

(** The promise of [login] and the registration of its listener. *)
Record Listener := {
  registered : bool;
  resolved : option value
}.

(** The listener just registered by the promise executor. *)
Definition waiting : Listener := {| registered := true; resolved := None |}.

(** [authRespListener(event)], on [event.data]. A TypeError inside the
    handler ends the handler and leaves the listener as it was. *)
Definition authRespListener (data : value) (l : Listener) : Listener :=
  if negb (typeof_object data) then l
  else match get rt data "type" with
       | None => l
       | Some t =>
           {| registered := false;
              resolved :=
                match t, resolved l with
                | VStr "authorization_response", None => Some data
                | _, r => r
                end |}
       end.

(** The window delivers a message to the listener while it is registered. *)
Definition deliver (l : Listener) (data : value) : Listener :=
  if registered l then authRespListener data l else l.

Definition listen (messages : list value) : Listener :=
  fold_left deliver messages waiting.

Definition authorize_url (service clientId origin : string) : string :=
  (service ++ "/oauth/authorize?client_id=" ++ clientId
     ++ "&response_type=code&response_mode=web_message&origin=" ++ origin)%string.

Definition token_request (service assertion : string) : Request :=
  {| url := (service ++ "/api/token")%string;
     query := [];
     method := VStr "POST";
     headers := [("Content-Type", "application/x-www-form-urlencoded")];
     body := Form [("grant_type", "urn:ietf:params:oauth:grant-type:jwt-bearer");
                   ("assertion", assertion)] |}.

Definition discovery_request (service : string) : Request :=
  {| url := (service ++ "/api/")%string; query := []; method := VUndef;
     headers := []; body := NoBody |}.

(** Lines 61 to 84 of [login]: what follows [await authResponse], once
    the promise has settled with [data]. *)
Definition exchange (data : value) : M value :=
  c <- self ;;
  code <- or_TypeError (get rt data "code") ;;
  _ <- or_TypeError (get rt data "state") ;;
  assertion <- or_TypeError (to_string rt code) ;;
  t <- fetch_json (token_request (serviceUrl c) assertion) ;;
  access_token <- or_TypeError (get rt t "access_token") ;;
  d <- fetch_json (discovery_request (serviceUrl c)) ;;
  set_token access_token ;;;
  routes <- or_TypeError (get rt d "links") ;;
  set_links routes ;;;
  ret access_token.

(** [login(clientId)], in a window at [origin] that receives [messages]
    while the popup is open. *)
Definition login (clientId origin : string) (messages : list value) : M value :=
  emit AddListener ;;;
  c <- self ;;
  emit (OpenWindow (authorize_url (serviceUrl c) clientId origin)) ;;;
  let l := listen messages in
  (if registered l then ret tt else emit RemoveListener) ;;;
  match resolved l with
  | None => never
  | Some data => exchange data
  end.

(** *** logout *)

Definition logout : M unit :=
  set_token VNull ;;; set_links VNull.

(** *** request *)

(** The [path.forEach] of [request]: each segment is read from the node
    reached (a TypeError when that is [null] or [undefined]) and must
    be truthy. *)
Fixpoint walk (name : string) (meta : value) (path : list string) : M value :=
  match path with
  | [] => ret meta
  | segment :: rest =>
      v <- or_TypeError (get rt meta segment) ;;
      if negb (truthy v) then throw (Error ("Unknown method " ++ name)%string)
      else walk name v rest
  end.

Fixpoint append_params (params : list (string * value)) : M (list (string * string)) :=
  match params with
  | [] => ret []
  | (k, v) :: rest =>
      s <- or_TypeError (to_string rt v) ;;
      q <- append_params rest ;;
      ret ((k, s) :: q)
  end.

Definition authorization (tok : value) : M (list (string * string)) :=
  if truthy tok then
    s <- or_TypeError (to_string rt tok) ;;
    ret [("Authorization", ("Bearer " ++ s)%string)]
  else ret [].

(** Lines 118 to 132 of [request]: the headers, the URL with the
    query parameters, and the fetch. *)
Definition dispatch (meta data : value) (params : list (string * value)) : M value :=
  c <- self ;;
  hs <- authorization (token c) ;;
  u <- or_TypeError (get rt meta "url") ;;
  us <- or_TypeError (to_string rt u) ;;
  href <- or_TypeError (URL_parse rt us) ;;
  q <- append_params params ;;
  verb <- or_TypeError (get rt meta "method") ;;
  fetch_json {| url := href; query := q; method := verb;
                headers := hs; body := Data data |}.

(** [request(method, data, params)]; [params] lists the keys of the
    object in [Object.keys] order. *)
Definition request (name : string) (data : value) (params : list (string * value))
  : M value :=
  c <- self ;;
  meta <- walk name (links c) (split "." name) ;;
  dispatch meta data params.

(** *** fetchAll *)

(** [total === null || anns.length < total] *)
Definition more (anns : list value) (total : value) : M bool :=
  or_TypeError (again rt (List.length anns) total).

(** The [while] loop, run for at most [fuel] rounds. *)
Fixpoint fetchAll_loop (fuel : nat) (anns : list value) (total : value)
  : M (list value) :=
  go <- more anns total ;;
  if go then
    match fuel with
    | O => never
    | Datatypes.S fuel' =>
        searchResult <- request "search" VNull
                          [("offset", VNum (Z.of_nat (List.length anns)));
                           ("limit", VNum 1000)] ;;
        total' <- or_TypeError (get rt searchResult "total") ;;
        rows <- or_TypeError (get rt searchResult "rows") ;;
        page <- or_TypeError (spread rows) ;;
        fetchAll_loop fuel' (anns ++ page) total'
    end
  else ret anns.

Definition fetchAll (fuel : nat) : M (list value) :=
  fetchAll_loop fuel [] VNull.

End Methods.

End Client.

(** ** Route tables, services and a runtime to run the client on *)

Module Fixtures.
Import JS Client.

(** Following the own properties of nested objects, segment by segment. *)
Fixpoint descend (table : value) (path : list string) : option value :=
  match path with
  | [] => Some table
  | segment :: rest =>
      match table with
      | VObj props =>
          match assoc segment props with
          | Some v => descend v rest
          | None => None
          end
      | _ => None
      end
  end.

(** The path ends at a [{method, url}] leaf of the table. *)
Definition leaf_at (table : value) (path : list string) (verb : value) (u : string)
  : Prop :=
  exists props,
    descend table path = Some (VObj props)
    /\ assoc "method" props = Some verb
    /\ assoc "url" props = Some (VStr u).

(** The query pairs that [request] appends for [params]. *)
Definition appended (rt : Runtime) (params : list (string * value))
    (q : list (string * string)) : Prop :=
  Forall2 (fun p e => fst e = fst p /\ to_string rt (snd p) = Some (snd e)) params q.

(** The [Authorization] header that goes with a token. *)
Definition bearer (rt : Runtime) (tok : value) (hs : list (string * string)) : Prop :=
  if truthy tok
  then exists s, to_string rt tok = Some s /\ hs = [("Authorization", ("Bearer " ++ s)%string)]
  else hs = [].

(** Computations that never throw [new Error(...)]. *)
Definition no_Error {S A : Type} (m : @M S A) : Prop :=
  forall w msg, fst (m w) <> Throws (Error msg).

(** The world in which [exchange] starts: the window events of [login]
    have happened, nothing else has changed. *)
Definition opened {S : Type} (rt : Runtime) (clientId origin : string)
    (messages : list value) (w : @World S) : @World S :=
  {| this := this w; server := server w;
     trace := ((trace w ++ [AddListener])
                 ++ [OpenWindow (authorize_url (serviceUrl (this w)) clientId origin)])
                 ++ (if registered (listen rt messages) then [] else [RemoveListener]) |}.

(** The two fields are set together: either the session holds neither a
    token nor a route table, or it holds a route table (with a token, or
    with none when the routes are anonymous). *)
Definition together (c : Session) : Prop :=
  (token c = VNull /\ links c = VNull) \/ exists props, links c = VObj props.

(** Every discovery body the service delivers carries a [links] object. *)
Definition discovers_routes (rt : Runtime) {S : Type}
    (serve : S -> Request -> response * S) (service : string) : Prop :=
  forall s d s',
    serve s (discovery_request service) = (Body d, s') ->
    exists props, get rt d "links" = Some (VObj props).

(** Computations that leave the fields of the client as they are. *)
Definition keeps_session {S A : Type} (m : @M S A) : Prop :=
  forall w, this (snd (m w)) = this w.

(** The query that [fetchAll] appends at [offset]. *)
Definition offset_query (offset : nat) : list (string * string) :=
  [("offset", Z_to_string (Z.of_nat offset)); ("limit", "1000")].

(** The call of [fetch] that [fetchAll] makes at [offset]. *)
Definition search_request (href : string) (verb : value)
    (hs : list (string * string)) (offset : nat) : Request :=
  {| url := href; query := offset_query offset;
     method := verb; headers := hs; body := Data VNull |}.

(** Server behaviours, as [fetchAll] meets them. Each answer to a
    search at offset [n] brings at least one row whenever the loop test
    still holds of [n] and the total it reports. *)
Definition makes_progress (rt : Runtime) {S : Type}
    (serve : S -> Request -> response * S) : Prop :=
  forall s r n b s' total rows page,
    query r = offset_query n ->
    serve s r = (Body b, s') ->
    get rt b "total" = Some total ->
    get rt b "rows" = Some rows ->
    spread rows = Some page ->
    again rt n total = Some true ->
    page <> [].

(** No reported total lets the loop test hold at [bound] rows or more. *)
Definition totals_below (rt : Runtime) {S : Type}
    (serve : S -> Request -> response * S) (bound : nat) : Prop :=
  forall s r b s' total m,
    serve s r = (Body b, s') ->
    get rt b "total" = Some total ->
    again rt m total = Some true ->
    m < bound.

(** Every answer to [r] is an empty page with a total that keeps the
    loop test true at [n] rows. *)
Definition stalls (rt : Runtime) {S : Type}
    (serve : S -> Request -> response * S) (r : Request) (n : nat) : Prop :=
  forall s, exists b s' total rows,
    serve s r = (Body b, s')
    /\ get rt b "total" = Some total
    /\ get rt b "rows" = Some rows
    /\ spread rows = Some []
    /\ again rt n total = Some true.

(** The world after the fetch of [fetchAll] at [offset] has been
    answered, the service going to [s]. *)
Definition after {S : Type} (href : string) (verb : value)
    (hs : list (string * string)) (w : @World S) (s : S) (offset : nat) : @World S :=
  {| this := this w; server := s;
     trace := trace w ++ [Fetch (search_request href verb hs offset)] |}.

(** A search endpoint over [data] that reports their number as [total]
    and serves at most [page] rows per request, from the requested
    offset. *)
Definition search_service (data : list value) (page : nat)
  : unit -> Request -> response * unit :=
  fun _ r =>
    match assoc "offset" (query r), assoc "limit" (query r) with
    | Some o, Some l =>
        match Z_of_string o, Z_of_string l with
        | Some off, Some lim =>
            (Body (VObj [("total", VNum (Z.of_nat (List.length data)));
                         ("rows", VArr (firstn (Nat.min page (Z.to_nat lim))
                                          (skipn (Z.to_nat off) data)))]), tt)
        | _, _ => (Fails, tt)
        end
    | _, _ => (Fails, tt)
    end.

(** A search endpoint that hands out one row per request and reports,
    on its [k]-th answer, a total of [k + 2]. *)
Definition growing_service : nat -> Request -> response * nat :=
  fun k _ =>
    (Body (VObj [("total", VNum (Z.of_nat (k + 2))); ("rows", VArr [VNum (Z.of_nat k)])]),
     Datatypes.S k).

(** A search endpoint that always reports [total] and an empty page. *)
Definition stalled_service (total : Z) : unit -> Request -> response * unit :=
  fun _ _ => (Body (VObj [("total", VNum total); ("rows", VArr [])]), tt).

(** A service that answers the token exchange with [t], the discovery
    with [d] and fails every other call. *)
Definition oauth_service (t d : response) : unit -> Request -> response * unit :=
  fun _ r =>
    match body r with
    | Form _ => (t, tt)
    | NoBody => (d, tt)
    | Data _ => (Fails, tt)
    end.

Definition is_alpha (c : ascii) : bool :=
  let n := nat_of_ascii c in
  ((65 <=? n) && (n <=? 90) || (97 <=? n) && (n <=? 122))%nat.

Definition is_scheme_char (c : ascii) : bool :=
  let n := nat_of_ascii c in
  is_alpha c || ((48 <=? n) && (n <=? 57))%nat
  || Ascii.eqb c "+" || Ascii.eqb c "-" || Ascii.eqb c ".".

Fixpoint scheme_rest (s : string) : bool :=
  match s with
  | EmptyString => false
  | String c r => if Ascii.eqb c ":" then true else is_scheme_char c && scheme_rest r
  end.

(** An absolute URL starts with a scheme. *)
Definition has_scheme (s : string) : bool :=
  match s with
  | EmptyString => false
  | String c r => is_alpha c && scheme_rest r
  end.

(** A runtime for running the examples: no prototype members besides
    those of [Object.prototype], built-ins without properties, URLs
    accepted when they start with a scheme, decimal integers as
    numeric strings. *)
Definition bare : Runtime :=
  {| proto_get := fun _ _ => VUndef;
     host_get := fun _ _ => VUndef;
     host_to_string := fun h => Some ("function " ++ h ++ "() { [native code] }")%string;
     URL_parse := fun s => if has_scheme s then Some s else None;
     StringToNumber := Z_of_string |}.

(** The route table of a small service. *)
Definition routes : value :=
  VObj [("profile", VObj [("read", VObj [("method", VStr "GET");
                                         ("url", VStr "http://localhost:5000/api/profile")])]);
        ("search", VObj [("method", VStr "GET");
                         ("url", VStr "http://localhost:5000/api/search")])].

Definition logged_in : Session :=
  {| serviceUrl := "http://localhost:5000"; token := VStr "tok"; links := routes |}.

Definition start {S : Type} (c : Session) (s : S) : World :=
  {| this := c; server := s; trace := [] |}.

(** The records 0, 1, ..., [n - 1]. *)
Definition records (n : nat) : list value :=
  map (fun i => VNum (Z.of_nat i)) (seq 0 n).

Definition grant : value :=
  VObj [("type", VStr "authorization_response"); ("code", VStr "abc"); ("state", VStr "xyz")].

Definition grant_without_code : value :=
  VObj [("type", VStr "authorization_response"); ("state", VStr "xyz")].

Definition unrelated : value := VObj [("type", VStr "resize")].

End Fixtures.

(** ** Runs of fetchAll against any service *)

Module Runs.
Import JS Client Fixtures.

Section Served.

Variable rt : Runtime.
Context {S : Type}.
Variable serve : S -> Request -> response * S.

(** The pages of rows that the service hands out when it is sent [reqs]
    in turn, starting in state [s]; it ends at the first answer that
    carries no page. *)
Fixpoint pages_served (s : S) (reqs : list Request) : list (list value) :=
  match reqs with
  | [] => []
  | r :: rest =>
      match serve s r with
      | (Body b, s') =>
          match get rt b "rows" with
          | Some rows =>
              match spread rows with
              | Some page => page :: pages_served s' rest
              | None => []
              end
          | None => []
          end
      | _ => []
      end
  end.

End Served.

(** Each request asks for the offset that is the number of rows of the
    pages before it, [n] at the start, with limit 1000. *)
Fixpoint running_offsets (n : nat) (reqs : list Request) (pages : list (list value))
  : Prop :=
  match reqs, pages with
  | [], [] => True
  | r :: reqs', page :: pages' =>
      query r = offset_query n
      /\ running_offsets (n + List.length page) reqs' pages'
  | _, _ => False
  end.

End Runs.

(** ** The application (app.js) *)

Module App.
Import JS Client Fixtures.

(** *** Patterns

    The regular expressions of the application, anchored at both ends
    (no flags): a sequence of characters and of capturing groups, each
    one or more, or zero or more, characters of a class. A group is
    greedy and gives characters back when the rest does not match.

    Strings are byte strings, and a character may take several bytes:
    a class is the test whether a character of the class starts a
    string, and a group goes through its characters byte by byte. *)
Inductive atom :=
| Lit (c : ascii)
| Group (cls : string -> bool) (min : nat).

(** A group that has taken [n] bytes, [acc], and goes on in [s]; [k]
    matches the rest of the pattern. *)
Fixpoint greedy {R : Type} (cls : string -> bool) (min : nat)
    (k : string -> string -> option R) (n : nat) (acc s : string) : option R :=
  let stop := if (min <=? n)%nat then k acc s else None in
  match s with
  | EmptyString => stop
  | String d r =>
      if cls s
      then match greedy cls min k (Datatypes.S n) (acc ++ String d EmptyString) r with
           | Some m => Some m
           | None => stop
           end
      else stop
  end.

(** The captures of a match of the whole of [s], first group first. *)
Fixpoint exec (p : list atom) (s : string) (caps : list string)
  : option (list string) :=
  match p with
  | [] => match s with
          | EmptyString => Some (rev caps)
          | String _ _ => None
          end
  | Lit c :: p' =>
      match s with
      | String d r => if Ascii.eqb c d then exec p' r caps else None
      | EmptyString => None
      end
  | Group cls min :: p' =>
      greedy cls min (fun cap rest => exec p' rest (cap :: caps)) 0 EmptyString s
  end.

(** Every character of [s] is of the class. *)
Fixpoint all_chars (cls : ascii -> bool) (s : string) : bool :=
  match s with
  | EmptyString => true
  | String c r => cls c && all_chars cls r
  end.

(** A class of characters of one byte: [s] starts with one of them. *)
Definition starts (cls : ascii -> bool) (s : string) : bool :=
  match s with
  | String c _ => cls c
  | EmptyString => false
  end.

(** The class of every character but the at sign. *)
Definition not_at (c : ascii) : bool := negb (Ascii.eqb c "@").

(** The line terminators: the line feed, the carriage return, and the
    line separator U+2028 and the paragraph separator U+2029, which are
    three bytes each. *)
Definition LF : string := String "010" EmptyString.
Definition CR : string := String "013" EmptyString.
Definition LS : string := String "226" (String "128" (String "168" EmptyString)).
Definition PS : string := String "226" (String "128" (String "169" EmptyString)).

Definition line_terminators : list string := [LF; CR; LS; PS].

(** [.]: any character but a line terminator; no line terminator
    starts [s]. *)
Definition dot (s : string) : bool :=
  negb (existsb (fun t => String.prefix t s) line_terminators).

(** At every byte of [cap], followed by [rest], the class says yes. *)
Fixpoint taken (cls : string -> bool) (cap rest : string) : bool :=
  match cap with
  | EmptyString => true
  | String c cap' => cls (String c cap' ++ rest)%string && taken cls cap' rest
  end.

(** [a] holds no line terminator. *)
Definition one_line (a : string) : Prop :=
  forall t p q, In t line_terminators -> a <> (p ++ t ++ q)%string.

(** The pattern of [parseUserid]: the characters of acct and a colon,
    a group of one or more characters that are no at sign, an at sign,
    a group of any number of [dot] characters. *)
Definition acct_re : list atom :=
  [Lit "a"; Lit "c"; Lit "c"; Lit "t"; Lit ":"; Group (starts not_at) 1; Lit "@";
   Group dot 0].

Record Account := {
  username : string;
  authority : string
}.

(** [parseUserid(userid)]: [None] is the TypeError of destructuring the
    [null] that [match] returns when the pattern does not match. *)
Definition parseUserid (userid : string) : option Account :=
  match exec acct_re userid [] with
  | Some [u; a] => Some {| username := u; authority := a |}
  | _ => None
  end.

(** *** isPrivate, isInGroup *)

(** What a function of the application comes to: a value, an exception,
    or a call of a built-in function that is not interpreted here. *)
Inductive result (A : Type) :=
| Ok (a : A)
| Raise (e : exn)
| Opaque.
Arguments Ok {A} a.
Arguments Raise {A} e.
Arguments Opaque {A}.

Definition and_then {A B : Type} (r : result A) (f : A -> result B) : result B :=
  match r with
  | Ok a => f a
  | Raise e => Raise e
  | Opaque => Opaque
  end.

Notation "x <~ r ;; k" := (and_then r (fun x => k))
  (at level 61, r at next level, right associativity).

(** A property read. *)
Definition prop (rt : Runtime) (v : value) (k : string) : result value :=
  match get rt v k with
  | Some x => Ok x
  | None => Raise TypeError
  end.

(** The call [v.name(...)] when [v] is not of a class whose method
    [name] is interpreted: a TypeError, unless [v.name] is a built-in
    function. *)
Definition call_other {A : Type} (rt : Runtime) (v : value) (name : string)
  : result A :=
  match get rt v name with
  | Some (VBuiltin true _) => Opaque
  | _ => Raise TypeError
  end.

(** [s.indexOf(needle)] on a string. *)
Definition string_indexOf (s needle : string) : Z :=
  match String.index 0 needle s with
  | Some n => Z.of_nat n
  | None => (-1)%Z
  end.

(** [xs.indexOf(needle)] on an array, for a string [needle]: the first
    element that is that string, counted from [i]. *)
Fixpoint array_indexOf (xs : list value) (needle : string) (i : Z) : Z :=
  match xs with
  | [] => (-1)%Z
  | VStr s :: r => if String.eqb s needle then i else array_indexOf r needle (i + 1)
  | _ :: r => array_indexOf r needle (i + 1)
  end.

(** [p.indexOf(needle)] *)
Definition indexOf (rt : Runtime) (p : value) (needle : string) : result Z :=
  match p with
  | VStr s => Ok (string_indexOf s needle)
  | VArr xs => Ok (array_indexOf xs needle 0)
  | _ => call_other rt p "indexOf"
  end.

(** [xs.some(f)], for a callback whose result is tested for truth. *)
Fixpoint array_some (f : value -> result bool) (xs : list value) : result bool :=
  match xs with
  | [] => Ok false
  | x :: r =>
      b <~ f x ;;
      if b then Ok true else array_some f r
  end.

(** [xs.filter(f)] *)
Fixpoint array_filter (f : value -> result bool) (xs : list value)
  : result (list value) :=
  match xs with
  | [] => Ok []
  | x :: r =>
      b <~ f x ;;
      l <~ array_filter f r ;;
      Ok (if b then x :: l else l)
  end.

(** [!ann.permissions.read.some(p => p.indexOf(needle))] *)
Definition none_without (rt : Runtime) (needle : string) (ann : value) : result bool :=
  permissions <~ prop rt ann "permissions" ;;
  read <~ prop rt permissions "read" ;;
  match read with
  | VArr ps =>
      b <~ array_some (fun p => i <~ indexOf rt p needle ;; Ok (truthy (VNum i))) ps ;;
      Ok (negb b)
  | _ => call_other rt read "some"
  end.

Definition isPrivate (rt : Runtime) (ann : value) : result bool :=
  none_without rt "group:" ann.

Definition isInGroup (rt : Runtime) (ann : value) : result bool :=
  none_without rt "group:__world__" ann.

(** The read permissions of [ann] are the strings [ps]. *)
Definition reads (rt : Runtime) (ann : value) (ps : list string) : Prop :=
  exists permissions,
    get rt ann "permissions" = Some permissions
    /\ get rt permissions "read" = Some (VArr (map VStr ps)).

(** The annotation has no [permissions], or they have no [read]. *)
Definition unreadable (rt : Runtime) (ann : value) : Prop :=
  get rt ann "permissions" = None
  \/ exists permissions,
       get rt ann "permissions" = Some permissions
       /\ (get rt permissions "read" = None
           \/ get rt permissions "read" = Some VUndef
           \/ get rt permissions "read" = Some VNull).

(** Three annotations: one readable by its author only, one by
    everybody, one by the members of a group. *)
Definition sample_annotations : list value :=
  [VObj [("permissions", VObj [("read", VArr [VStr "acct:jim@hypothes.is"])])];
   VObj [("permissions", VObj [("read", VArr [VStr "group:__world__"])])];
   VObj [("permissions", VObj [("read", VArr [VStr "group:abc"])])]].

Definition sample_permissions : list (list string) :=
  [["acct:jim@hypothes.is"]; ["group:__world__"]; ["group:abc"]].

(** *** The component *)

Record Stats := {
  total : nat;
  privateTotal : nat;
  groupTotal : nat
}.

(** The statistics that [_login] computes from the annotations. *)
Definition annotation_stats (rt : Runtime) (anns : list value) : result Stats :=
  private <~ array_filter (isPrivate rt) anns ;;
  group <~ array_filter (isInGroup rt) anns ;;
  Ok {| total := List.length anns;
        privateTotal := List.length private;
        groupTotal := List.length group |}.

(** [this.state] *)
Record State := {
  clientId : value;
  isLoggedIn : bool;
  authorizing : bool;
  fetching : bool;
  profile : value;
  error : option exn;
  annotationStats : option Stats
}.

(** [localStorage]: the first binding of a key is its item. *)
Definition Storage := list (string * string).

Definition getItem (store : Storage) (k : string) : value :=
  match assoc k store with
  | Some v => VStr v
  | None => VNull
  end.

Definition setItem (store : Storage) (k v : string) : Storage := (k, v) :: store.

Definition DEFAULT_SERVICE_URL : string := "http://localhost:5000".

(** The component: its state, the storage of the page, and the world of
    its client. *)
Record Page {S : Type} := {
  state : State;
  storage : Storage;
  world : @World S
}.
Arguments Page S : clear implicits.

(** [constructor(props)], in a page with the given storage and service. *)
Definition new_App {S : Type} (store : Storage) (s : S) : Page S :=
  {| state := {| clientId := getItem store "hypothesis-client-id";
                 isLoggedIn := false; authorizing := false; fetching := false;
                 profile := VNull; error := None; annotationStats := None |};
     storage := store;
     world := {| this := new_client DEFAULT_SERVICE_URL; server := s; trace := [] |} |}.

(** [_clientIdChanged(id)] *)
Definition _clientIdChanged {S : Type} (id : string) (a : Page S) : Page S :=
  {| state := {| clientId := VStr id;
                 isLoggedIn := isLoggedIn (state a); authorizing := authorizing (state a);
                 fetching := fetching (state a); profile := profile (state a);
                 error := error (state a); annotationStats := annotationStats (state a) |};
     storage := setItem (storage a) "hypothesis-client-id" id;
     world := world a |}.

(** [_logout()] *)
Definition _logout {S : Type} (a : Page S) : Page S :=
  {| state := {| clientId := clientId (state a);
                 isLoggedIn := false; authorizing := authorizing (state a);
                 fetching := fetching (state a); profile := VNull;
                 error := error (state a); annotationStats := None |};
     storage := storage a;
     world := snd (logout (world a)) |}.

(** The [setState] calls of [_login]. *)
Definition begin_login (st : State) : State :=
  {| clientId := clientId st; isLoggedIn := isLoggedIn st; authorizing := true;
     fetching := fetching st; profile := profile st; error := None;
     annotationStats := annotationStats st |}.

Definition logged_in_fetching (st : State) : State :=
  {| clientId := clientId st; isLoggedIn := true; authorizing := false;
     fetching := true; profile := profile st; error := error st;
     annotationStats := annotationStats st |}.

Definition with_profile (p : value) (st : State) : State :=
  {| clientId := clientId st; isLoggedIn := isLoggedIn st; authorizing := authorizing st;
     fetching := false; profile := p; error := error st;
     annotationStats := annotationStats st |}.

Definition with_stats (s : Stats) (st : State) : State :=
  {| clientId := clientId st; isLoggedIn := isLoggedIn st; authorizing := authorizing st;
     fetching := fetching st; profile := profile st; error := error st;
     annotationStats := Some s |}.

Definition with_error (e : exn) (st : State) : State :=
  {| clientId := clientId st; isLoggedIn := isLoggedIn st; authorizing := authorizing st;
     fetching := fetching st; profile := profile st; error := Some e;
     annotationStats := annotationStats st |}.

Definition failed (e : exn) (st : State) : State :=
  {| clientId := clientId st; isLoggedIn := isLoggedIn st; authorizing := false;
     fetching := false; profile := profile st; error := Some e;
     annotationStats := annotationStats st |}.

Definition settle {S : Type} (a : Page S) (st : State) (w : @World S) : Page S :=
  {| state := st; storage := storage a; world := w |}.

(** [_login(e)], for the client id typed into the form, in a window at
    [origin] that receives [messages]; the page when every promise of
    the chain that settles has settled. *)
Definition _login {S : Type} (rt : Runtime) (serve : S -> Request -> response * S)
    (id origin : string) (messages : list value) (fuel : nat) (a : Page S)
  : result (Page S) :=
  let st1 := begin_login (state a) in
  match login rt serve id origin messages (world a) with
  | (Unsettled, w1) => Ok (settle a st1 w1)
  | (Throws e, w1) => Ok (settle a (failed e st1) w1)
  | (Returns _, w1) =>
      let st2 := logged_in_fetching st1 in
      match request rt serve "profile.read" VNull [] w1 with
      | (Unsettled, w2) => Ok (settle a st2 w2)
      | (Throws e, w2) => Ok (settle a (failed e st2) w2)
      | (Returns p, w2) =>
          let st3 := with_profile p st2 in
          match fetchAll rt serve fuel w2 with
          | (Unsettled, w3) => Ok (settle a st3 w3)
          | (Throws e, w3) => Ok (settle a (with_error e st3) w3)
          | (Returns anns, w3) =>
              match annotation_stats rt anns with
              | Ok s => Ok (settle a (with_stats s st3) w3)
              | Raise e => Ok (settle a (with_error e st3) w3)
              | Opaque => Opaque
              end
          end
      end
  end.

(** Computations that return or throw. *)
Definition settles {S A : Type} (m : @M S A) : Prop :=
  forall w, fst (m w) <> Unsettled.

(** A service for a whole session: it answers the token exchange, the
    discovery, the profile request, and searches over
    [sample_annotations]. *)
Definition demo_service : unit -> Request -> response * unit :=
  fun _ r =>
    match body r with
    | Form _ => (Body (VObj [("access_token", VStr "tok")]), tt)
    | NoBody => (Body (VObj [("links", routes)]), tt)
    | Data _ =>
        if String.eqb (url r) "http://localhost:5000/api/profile"
        then (Body (VObj [("userid", VStr "acct:jim@hypothes.is");
                          ("groups", VArr [])]), tt)
        else search_service sample_annotations 1000 tt r
    end.

(** The page after a visitor with an empty storage has logged in
    against [demo_service]. *)
Definition demo_session : result (Page unit) :=
  _login bare demo_service "cid" "http://localhost:4000" [grant] 2 (new_App [] tt).

Definition demo_page : Page unit :=
  Eval vm_compute in
    match demo_session with
    | Ok a => a
    | _ => new_App [] tt
    end.

(** *** render

    The tree that [render] builds: a call [h(tag, attributes,
    ...children)] is kept as it is made. *)

(** The functions passed as attributes: [(e) => this._login(e)],
    [(e) => this._clientIdChanged(e.target.value)] and
    [() => this._logout()]. *)
Inductive handler := SubmitLogin | InputClientId | ClickLogout.

Inductive attribute :=
| Plain (v : value)
| On (f : handler).

Inductive vnode :=
| Child (v : value)
| Children (l : list vnode)
| H (tag : string) (attributes : option (list (string * attribute)))
    (children : list vnode).

(** [err.message]: the text given to [new Error], and for the errors
    that the platform raises the text [text] that it gives them. *)
Definition message (text : exn -> string) (e : exn) : string :=
  match e with
  | Error m => m
  | _ => text e
  end.

(** [xs.map(f)] *)
Fixpoint array_map {A : Type} (f : value -> result A) (xs : list value)
  : result (list A) :=
  match xs with
  | [] => Ok []
  | x :: r =>
      y <~ f x ;;
      l <~ array_map f r ;;
      Ok (y :: l)
  end.

(** [parseUserid(userid)] for any [userid]: [match] is the one of
    strings. *)
Definition parseUserid_of (rt : Runtime) (userid : value) : result Account :=
  match userid with
  | VStr s =>
      match parseUserid s with
      | Some account => Ok account
      | None => Raise TypeError
      end
  | _ => call_other rt userid "match"
  end.

(** [_renderLoginForm()] *)
Definition _renderLoginForm (st : State) : vnode :=
  H "div" (Some [])
    [ H "h2" (Some []) [Child (VStr "Third party client test app")];
      H "form" (Some [("onSubmit", On SubmitLogin)])
        [ H "input" (Some [ ("name", Plain (VStr "client_id"));
                            ("placeholder", Plain (VStr "OAuth Client ID"));
                            ("onInput", On InputClientId);
                            ("value", Plain (clientId st)) ]) [];
          H "button" (Some []) [Child (VStr "Login to Hypothesis")] ] ].

(** [groups.filter(g => g.url).map(g => h('li', ...))] *)
Definition group_item (rt : Runtime) (g : value) : result vnode :=
  href <~ prop rt g "url" ;;
  name <~ prop rt g "name" ;;
  Ok (H "li" (Some [])
        [H "a" (Some [("href", Plain href); ("target", Plain (VStr "_blank"))])
           [Child name]]).

Definition group_items (rt : Runtime) (groups : value) : result (list vnode) :=
  match groups with
  | VArr gs =>
      shown <~ array_filter (fun g => u <~ prop rt g "url" ;; Ok (truthy u)) gs ;;
      array_map (group_item rt) shown
  | _ => call_other rt groups "filter"
  end.

Definition count (label : string) (n : nat) : vnode :=
  H "div" (Some []) [Child (VStr (label ++ Z_to_string (Z.of_nat n))%string)].

(** [_renderProfileInfo()] *)
Definition _renderProfileInfo (rt : Runtime) (st : State) : result vnode :=
  userid <~ prop rt (profile st) "userid" ;;
  groups <~ prop rt (profile st) "groups" ;;
  account <~ parseUserid_of rt userid ;;
  items <~ group_items rt groups ;;
  Ok (H "div" (Some [])
        [ H "div" (Some [])
            [ H "h2" (Some []) [Child (VStr "Profile")];
              Child (VStr ("Username: " ++ username account)%string) ];
          H "div" (Some [])
            [ H "h2" (Some []) [Child (VStr "Groups")];
              H "ul" (Some []) [Children items] ];
          H "div" (Some [])
            [ H "h2" (Some []) [Child (VStr "Annotation Stats")];
              match annotationStats st with
              | Some s => Children [ count "Total: " (total s);
                                     count "Private: " (privateTotal s);
                                     count "In groups: " (groupTotal s) ]
              | None => Child (VStr "Fetching…")
              end ];
          H "hr" None [];
          H "button" (Some [("onClick", On ClickLogout)]) [Child (VStr "Logout")] ]).

(** The [messages] of [render]. *)
Definition render_messages (text : exn -> string) (st : State) : list string :=
  (match error st with
   | Some e => [("Error: " ++ message text e)%string]
   | None => []
   end
   ++ (if authorizing st then ["Waiting for authorization…"] else [])
   ++ (if fetching st then ["Fetching profile…"] else []))%list.

(** [render()] *)
Definition render (rt : Runtime) (text : exn -> string) (st : State) : result vnode :=
  let loginForm :=
    if negb (isLoggedIn st) && negb (authorizing st)
    then _renderLoginForm st else Child VNull in
  let messages := render_messages text st in
  profileInfo <~ (if truthy (profile st) then _renderProfileInfo rt st
                  else Ok (Child VNull)) ;;
  Ok (H "div" (Some [])
        [ Children (map (fun m => Child (VStr m)) messages); loginForm; profileInfo ]).

(** The functions that a tree offers to call, and the strings that it
    shows, in the order of the tree. *)
Definition attribute_handlers (attributes : option (list (string * attribute)))
  : list handler :=
  match attributes with
  | Some l => flat_map (fun a => match snd a with On f => [f] | Plain _ => [] end) l
  | None => []
  end.

Fixpoint handlers (t : vnode) : list handler :=
  match t with
  | Child _ => []
  | Children l => flat_map handlers l
  | H _ attributes l => attribute_handlers attributes ++ flat_map handlers l
  end.

Fixpoint texts (t : vnode) : list string :=
  match t with
  | Child (VStr s) => [s]
  | Child _ => []
  | Children l => flat_map texts l
  | H _ _ l => flat_map texts l
  end.

(** The page that offers nothing to do: [messages] and neither the form
    nor the profile. *)
Definition bare_page (messages : list string) : vnode :=
  H "div" (Some []) [ Children (map (fun m => Child (VStr m)) messages);
                      Child VNull; Child VNull ].

(** What the visitor of [demo_page] sees. *)
Definition demo_view : vnode :=
  Eval vm_compute in
    match render bare (fun _ => EmptyString) (state demo_page) with
    | Ok t => t
    | _ => Child VNull
    end.

(** The page of a visitor whose popup was closed before it answered. *)
Definition pending_page : Page unit :=
  Eval vm_compute in
    match _login bare demo_service "cid" "http://localhost:4000" [] 2 (new_App [] tt) with
    | Ok a => a
    | _ => new_App [] tt
    end.

(** A service whose route table is empty. *)
Definition routeless_service : unit -> Request -> response * unit :=
  oauth_service (Body (VObj [("access_token", VStr "tok")]))
    (Body (VObj [("links", VObj [])])).

(** The page of a visitor who has logged in against it. *)
Definition stranded_page : Page unit :=
  Eval vm_compute in
    match _login bare routeless_service "cid" "http://localhost:4000" [grant] 2
            (new_App [] tt) with
    | Ok a => a
    | _ => new_App [] tt
    end.

(** The state of a page that holds the profile of nobody. *)
Definition anonymous_state : State :=
  with_profile (VObj [("userid", VNull); ("groups", VArr [])])
    (state (new_App (S := unit) [] tt)).

End App.

Import JS Client Fixtures.

(** ** Properties *)

Ltac run :=
  cbv [request dispatch login exchange logout fetchAll more authorization fetch_json
       bind ret throw never self emit set_token set_links or_TypeError].

Ltac proj := cbn [this server trace serviceUrl token links fst snd].

(** *** logout, and request without a route table *)

Lemma split_cons (sep : ascii) (s : string) :
  exists h t, split sep s = h :: t.
Proof.
  induction s as [|c r IH]; simpl.
  - now exists EmptyString, [].
  - destruct (Ascii.eqb c sep).
    + now exists EmptyString, (split sep r).
    + destruct IH as (h & t & ->). now exists (String c h), t.
Qed.

Section Logout.

Context {S : Type}.
Variable rt : Runtime.
Variable serve : S -> Request -> response * S.

(** What [logout] leaves: the same service URL, and both fields [null];
    the service and the trace are untouched. *)
Lemma logout_world (w : @World S) :
  logout w =
    (Returns tt,
     {| this := {| serviceUrl := serviceUrl (this w); token := VNull; links := VNull |};
        server := server w; trace := trace w |}).
Proof. reflexivity. Qed.

(** A walk that starts at [null] stops at its first segment. *)
Lemma walk_null (name segment : string) (rest : list string) (w : @World S) :
  walk rt name VNull (segment :: rest) w = (Throws TypeError, w).
Proof. reflexivity. Qed.

Lemma request_without_table (name : string) (data : value)
    (params : list (string * value)) (w : @World S) :
  links (this w) = VNull ->
  request rt serve name data params w = (Throws TypeError, w).
Proof.
  intros H. run. rewrite H.
  destruct (split_cons "." name) as (h & t & ->).
  now rewrite walk_null.
Qed.

End Logout.

(** C10. [logout] is total, returns without touching the service or the
    trace (no fetch, no window event), sets the token and the route
    table to [null], and a second call changes nothing: logout after
    logout is logout. *)
Theorem logout_idempotent :
  forall (S : Type) (w : @World S),
    fst (logout w) = Returns tt
    /\ token (this (snd (logout w))) = VNull
    /\ links (this (snd (logout w))) = VNull
    /\ server (snd (logout w)) = server w
    /\ trace (snd (logout w)) = trace w
    /\ logout (snd (logout w)) = logout w.
Proof.
  intros S w. rewrite !logout_world. simpl. repeat split; reflexivity.
Qed.

(** C1, as the code has it. After [logout] the session holds no token
    and no route table, and for every method string a following
    [request] fails before any fetch: the walk reads the first segment
    from the [null] table, which is a TypeError and not an Unknown
    Method error. *)
Theorem request_after_logout :
  forall (rt : Runtime) (S : Type) (serve : S -> Request -> response * S)
         (m : string) (data : value) (params : list (string * value)) (w : @World S),
    let w' := snd (logout w) in
    token (this w') = VNull
    /\ links (this w') = VNull
    /\ request rt serve m data params w' = (Throws TypeError, w').
Proof.
  intros rt S serve m data params w w'. subst w'. rewrite logout_world. simpl.
  repeat split. now apply request_without_table.
Qed.

(** C1 as stated fails: after [logout], [request('profile.read')] throws
    a TypeError, not [Error('Unknown method profile.read')]. *)
Lemma request_after_logout_not_unknown_method :
  fst (request bare (search_service [] 1000) "profile.read" VNull []
         (snd (logout (start logged_in tt))))
    = Throws TypeError
  /\ fst (request bare (search_service [] 1000) "profile.read" VNull []
            (snd (logout (start logged_in tt))))
       <> Throws (Error "Unknown method profile.read").
Proof. split; [reflexivity | discriminate]. Qed.

(** *** The listener of [login] *)

Section Listener.

Variable rt : Runtime.

(** A message that is not an object is ignored: the listener stays. *)
Lemma listener_skips_non_object (data : value) (l : Listener) :
  typeof_object data = false -> authRespListener rt data l = l.
Proof. intros H. unfold authRespListener. now rewrite H. Qed.

(** The message [null] is an object to [typeof]; reading its [type]
    throws inside the handler, which leaves the listener registered. *)
Lemma listener_survives_null (l : Listener) :
  authRespListener rt VNull l = l.
Proof. reflexivity. Qed.

(** An authorization response settles the promise and removes the
    listener. *)
Lemma listener_takes_grant (props : list (string * value)) :
  assoc "type" props = Some (VStr "authorization_response") ->
  authRespListener rt (VObj props) waiting
  = {| registered := false; resolved := Some (VObj props) |}.
Proof.
  intros H. unfold authRespListener, get, own. simpl typeof_object. cbv iota.
  simpl negb. cbv iota. now rewrite H.
Qed.

(** Any other object removes the listener as well, and settles nothing. *)
Lemma listener_removed_by_other_object (props : list (string * value)) :
  assoc "type" props <> Some (VStr "authorization_response") ->
  authRespListener rt (VObj props) waiting
  = {| registered := false; resolved := None |}.
Proof.
  intros H. unfold authRespListener, get, own. simpl.
  destruct (assoc "type" props) as [t|]; [|reflexivity].
  destruct t as [| | | |s| | |]; try reflexivity.
  destruct (String.eqb_spec s "authorization_response") as [->|Hne].
  - now elim H.
  - f_equal.
    repeat (destruct s as [|[[] [] [] [] [] [] [] []] s]; try reflexivity).
    now elim Hne.
Qed.

(** Once removed, the listener sees no further message. *)
Lemma listen_removed (messages : list value) (r : option value) :
  fold_left (deliver rt) messages {| registered := false; resolved := r |}
  = {| registered := false; resolved := r |}.
Proof. induction messages as [|m ms IH]; simpl; auto. Qed.

End Listener.

(** C2, at the failing input. An object message of another type, here
    [{type: 'resize'}], removes the listener without settling the
    promise: the authorization response that follows is never seen and
    [login] never settles, although the same response alone settles
    it. *)
Theorem listener_consumed_by_unrelated_object :
  forall (rt : Runtime) (S : Type) (serve : S -> Request -> response * S)
         (clientId origin : string) (w : @World S),
    listen rt [unrelated; grant] = {| registered := false; resolved := None |}
    /\ fst (login rt serve clientId origin [unrelated; grant] w) = Unsettled
    /\ listen rt [grant] = {| registered := false; resolved := Some grant |}.
Proof.
  intros rt S serve clientId origin w.
  assert (H1 : listen rt [unrelated; grant] = {| registered := false; resolved := None |}).
  { unfold listen. simpl fold_left. unfold deliver at 2. simpl registered. cbv iota.
    unfold unrelated. rewrite listener_removed_by_other_object by discriminate.
    reflexivity. }
  split; [exact H1|]. split.
  - run. rewrite H1. reflexivity.
  - unfold listen, grant. simpl fold_left. unfold deliver. simpl registered. cbv iota.
    now rewrite listener_takes_grant.
Qed.

(** *** Route resolution *)

Section Resolution.

Context {S : Type}.
Variable rt : Runtime.
Variable serve : S -> Request -> response * S.

Lemma no_Error_ret {A : Type} (a : A) : no_Error (S := S) (ret a).
Proof. intros w msg. discriminate. Qed.

Lemma no_Error_or_TypeError {A : Type} (o : option A) :
  no_Error (S := S) (or_TypeError o).
Proof. intros w msg. destruct o; discriminate. Qed.

Lemma no_Error_bind {A B : Type} (m : @M S A) (f : A -> @M S B) :
  no_Error m -> (forall a, no_Error (f a)) -> no_Error (bind m f).
Proof.
  intros Hm Hf w msg. unfold bind.
  specialize (Hm w msg). destruct (m w) as [[a|e|] w'] eqn:E; simpl in *.
  - apply Hf.
  - intros [= ->]. now apply Hm.
  - discriminate.
Qed.

Lemma no_Error_self : no_Error (@self S).
Proof. intros w msg. discriminate. Qed.

Lemma no_Error_fetch_json (r : Request) : no_Error (fetch_json serve r).
Proof.
  intros w msg. unfold fetch_json.
  destruct (serve (server w) r) as [[| |v] s']; discriminate.
Qed.

Lemma no_Error_append_params (params : list (string * value)) :
  no_Error (append_params (S := S) rt params).
Proof.
  induction params as [|[k v] rest IH]; simpl.
  - apply no_Error_ret.
  - apply no_Error_bind; [apply no_Error_or_TypeError|]. intros s.
    apply no_Error_bind; [exact IH|]. intros q. apply no_Error_ret.
Qed.

Lemma no_Error_authorization (tok : value) :
  no_Error (authorization (S := S) rt tok).
Proof.
  unfold authorization. destruct (truthy tok).
  - apply no_Error_bind; [apply no_Error_or_TypeError|]. intros s. apply no_Error_ret.
  - apply no_Error_ret.
Qed.

(** Whatever node the walk ended at, building and sending the request
    never raises Unknown Method. *)
Lemma no_Error_dispatch (meta data : value) (params : list (string * value)) :
  no_Error (dispatch rt serve meta data params).
Proof.
  unfold dispatch.
  repeat first
    [ apply no_Error_fetch_json
    | apply no_Error_bind; [ first [ apply no_Error_self
                                   | apply no_Error_authorization
                                   | apply no_Error_or_TypeError
                                   | apply no_Error_append_params ] | intros ? ] ].
Qed.

(** The names of [Object.prototype] contain no dot. *)
Lemma split_Object_prototype_name (k : string) :
  in_Object_prototype k = true -> split "." k = [k].
Proof.
  unfold in_Object_prototype. intros H.
  apply existsb_exists in H. destruct H as (x & Hin & Heq).
  apply String.eqb_eq in Heq. subst x.
  simpl in Hin.
  repeat (destruct Hin as [<- | Hin]; [reflexivity|]). contradiction.
Qed.

(** A name of [Object.prototype] that the table does not define is
    found on the prototype, and the walk accepts it. *)
Lemma walk_inherited (name k : string) (props : list (string * value)) (w : @World S) :
  in_Object_prototype k = true ->
  assoc k props = None ->
  walk rt name (VObj props) [k] w
  = (Returns (VBuiltin (negb (String.eqb k "__proto__")) ("Object." ++ k)), w).
Proof.
  intros Hk Hown. simpl. run. unfold get, own, inherited.
  now rewrite Hown, Hk.
Qed.

(** The walk along own properties of nested objects. *)
Lemma descend_truthy (v leaf : value) (path : list string) :
  descend v path = Some leaf -> truthy leaf = true -> truthy v = true.
Proof.
  destruct path as [|seg rest]; simpl.
  - now intros [= ->].
  - destruct v; try discriminate. reflexivity.
Qed.

Lemma walk_descend (name : string) (path : list string) :
  forall (table leaf : value) (w : @World S),
    descend table path = Some leaf ->
    truthy leaf = true ->
    walk rt name table path w = (Returns leaf, w).
Proof.
  induction path as [|seg rest IH]; intros table leaf w Hd Hl; simpl in *.
  - now injection Hd as ->.
  - destruct table; try discriminate.
    destruct (assoc seg props) as [v|] eqn:Hv; [|discriminate].
    run. unfold get, own. rewrite Hv.
    rewrite (descend_truthy _ _ _ Hd Hl). simpl negb. cbv iota.
    now apply IH.
Qed.

Lemma append_params_appended (params : list (string * value))
    (q : list (string * string)) (w : @World S) :
  appended rt params q -> append_params rt params w = (Returns q, w).
Proof.
  induction 1 as [|[k v] [k' s] params q [Hk Hs] _ IH]; simpl in *.
  - reflexivity.
  - unfold bind, or_TypeError. rewrite Hs. unfold ret at 1. rewrite IH. now subst k'.
Qed.

Lemma authorization_bearer (tok : value) (hs : list (string * string)) (w : @World S) :
  bearer rt tok hs -> authorization rt tok w = (Returns hs, w).
Proof.
  unfold bearer, authorization. destruct (truthy tok).
  - intros (s & Hs & ->). run. now rewrite Hs.
  - now intros ->.
Qed.

(** A method that names a leaf of the table is sent as one fetch, built
    from that leaf. *)
Lemma request_resolves (name : string) (data verb : value) (u href : string)
    (params : list (string * value)) (q hs : list (string * string)) (w : @World S) :
  leaf_at (links (this w)) (split "." name) verb u ->
  URL_parse rt u = Some href ->
  appended rt params q ->
  bearer rt (token (this w)) hs ->
  request rt serve name data params w
  = fetch_json serve {| url := href; query := q; method := verb;
                        headers := hs; body := Data data |} w.
Proof.
  intros (props & Hd & Hm & Hu) Hp Hq Hb.
  unfold request, dispatch, bind at 1 2, self.
  rewrite (walk_descend name _ _ _ w Hd eq_refl).
  unfold bind at 1 2, self. rewrite (authorization_bearer _ _ w Hb).
  unfold bind, or_TypeError, ret, get, own. rewrite Hu, Hm.
  cbn [to_string]. cbv beta iota. rewrite Hp. cbv beta iota.
  now rewrite (append_params_appended _ _ w Hq).
Qed.

(** The walk over a path in two parts. *)
Lemma walk_app (name : string) (prefix rest : list string) :
  forall (table node : value) (w : @World S),
    descend table prefix = Some node ->
    truthy node = true ->
    walk rt name table (prefix ++ rest) w = walk rt name node rest w.
Proof.
  induction prefix as [|seg more IH]; intros table node w Hd Hn; simpl in *.
  - now injection Hd as ->.
  - destruct table; try discriminate.
    destruct (assoc seg props) as [v|] eqn:Hv; [|discriminate].
    unfold bind, or_TypeError, ret, get, own. rewrite Hv.
    rewrite (descend_truthy _ _ _ Hd Hn). simpl negb. cbv iota.
    now apply IH.
Qed.

(** A segment that the node reached neither defines nor inherits stops
    the walk with Unknown Method, naming the whole method string, before
    anything is sent. *)
Lemma request_unknown_method (name seg : string) (prefix rest : list string)
    (props : list (string * value)) (data : value)
    (params : list (string * value)) (w : @World S) :
  split "." name = prefix ++ seg :: rest ->
  descend (links (this w)) prefix = Some (VObj props) ->
  assoc seg props = None ->
  in_Object_prototype seg = false ->
  request rt serve name data params w
  = (Throws (Error ("Unknown method " ++ name)%string), w).
Proof.
  intros Hs Hd Hown Hproto.
  unfold request, bind at 1 2, self. rewrite Hs.
  rewrite (walk_app name prefix (seg :: rest) _ _ w Hd eq_refl).
  simpl. unfold bind, or_TypeError, ret, get, own, inherited.
  now rewrite Hown, Hproto.
Qed.

End Resolution.

(** C5, at the failing inputs. When the route table is an object that
    does not define [k] and [k] is a name of [Object.prototype] (such as
    [constructor] or [toString]), [request(k)] finds the inherited member,
    takes it for a route and goes on to build the request: whatever
    happens next, it is not the Unknown Method error. *)
Theorem request_inherited_name :
  forall (rt : Runtime) (S : Type) (serve : S -> Request -> response * S)
         (k : string) (props : list (string * value)) (data : value)
         (params : list (string * value)) (w : @World S),
    links (this w) = VObj props ->
    assoc k props = None ->
    in_Object_prototype k = true ->
    fst (request rt serve k data params w)
      <> Throws (Error ("Unknown method " ++ k)%string).
Proof.
  intros rt S serve k props data params w Hl Hown Hk.
  unfold request, bind at 1 2, self. rewrite Hl.
  rewrite (split_Object_prototype_name k Hk).
  rewrite (walk_inherited rt _ _ _ w Hk Hown).
  apply no_Error_dispatch.
Qed.

(** [request('constructor')] on the example table: a TypeError from
    [new URL(undefined)], no Unknown Method error, nothing sent. *)
Lemma request_inherited_name_witness :
  fst (request bare (search_service [] 1000) "constructor" VNull []
         (start logged_in tt)) <> Throws (Error "Unknown method constructor").
Proof.
  exact (request_inherited_name bare unit (search_service [] 1000) "constructor"
           _ VNull [] (start logged_in tt) eq_refl eq_refl eq_refl).
Defined.

Example request_constructor :
  request bare (search_service [] 1000) "constructor" VNull [] (start logged_in tt)
  = (Throws TypeError, start logged_in tt).
Proof. reflexivity. Qed.



(** *** login *)

Section Login.

Context {S : Type}.
Variable rt : Runtime.
Variable serve : S -> Request -> response * S.

Lemma login_unfold (clientId origin : string) (messages : list value) (w : @World S) :
  login rt serve clientId origin messages w
  = match resolved (listen rt messages) with
    | None => (Unsettled, opened rt clientId origin messages w)
    | Some data => exchange rt serve data (opened rt clientId origin messages w)
    end.
Proof.
  unfold login, opened, bind, emit, self, ret, never. simpl.
  destruct (registered (listen rt messages)); simpl;
    destruct (resolved (listen rt messages)); try reflexivity;
    now rewrite app_nil_r.
Qed.

(** The ways [exchange] can end. *)
Lemma exchange_cases (data : value) (w : @World S) :
  let r := exchange rt serve data w in
  let svc := serviceUrl (this w) in
  (forall v, fst r = Returns v ->
     exists a t s1 d l,
       serve (server w) (token_request svc a) = (Body t, s1)
       /\ serve s1 (discovery_request svc) = (Body d, server (snd r))
       /\ get rt t "access_token" = Some v
       /\ get rt d "links" = Some l
       /\ this (snd r) = {| serviceUrl := svc; token := v; links := l |})
  /\ (forall e, fst r = Throws e -> e = FetchError \/ e = SyntaxError ->
        this (snd r) = this w)
  /\ fst r <> Unsettled
  /\ (this (snd r) = this w
      \/ exists s1 d s2,
           serve s1 (discovery_request svc) = (Body d, s2)
           /\ (get rt d "links" = None
               \/ exists l, get rt d "links" = Some l /\ links (this (snd r)) = l)).
Proof.
  cbv zeta. run.
  destruct (get rt data "code") as [code|]; simpl;
    [|repeat split; try discriminate; try (now left); intros e [= <-] [|]; discriminate].
  destruct (get rt data "state") as [st|]; simpl;
    [|repeat split; try discriminate; try (now left); intros e [= <-] [|]; discriminate].
  destruct (to_string rt code) as [a|]; simpl;
    [|repeat split; try discriminate; try (now left); intros e [= <-] [|]; discriminate].
  destruct (serve (server w) (token_request (serviceUrl (this w)) a))
    as [[| |t] s1] eqn:Ht; simpl;
    try (repeat split; try discriminate; try (now left); reflexivity).
  destruct (get rt t "access_token") as [tok|] eqn:Htok; simpl;
    [|repeat split; try discriminate; try (now left); intros e [= <-] [|]; discriminate].
  destruct (serve s1 (discovery_request (serviceUrl (this w))))
    as [[| |d] s2] eqn:Hd; simpl;
    try (repeat split; try discriminate; try (now left); reflexivity).
  destruct (get rt d "links") as [l|] eqn:Hl; simpl.
  - split; [|split; [discriminate|split; [discriminate|]]].
    + intros v [= <-]. exists a, t, s1, d, l. repeat split; assumption.
    + right. exists s1, d, s2. split; [exact Hd|]. right. now exists l.
  - split; [discriminate|]. split; [intros e [= <-] [|]; discriminate|].
    split; [discriminate|]. right. exists s1, d, s2. split; [exact Hd|]. now left.
Qed.

End Login.




(** A run of [login] that resolves, and one whose discovery fetch fails. *)
Example login_resolves :
  let w := start (new_client "http://localhost:5000") tt in
  let r := login bare (oauth_service (Body (VObj [("access_token", VStr "tok")]))
                         (Body (VObj [("links", routes)])))
             "cid" "http://localhost:4000" [VStr "hello"; VNull; grant] w in
  fst r = Returns (VStr "tok") /\ this (snd r) = logged_in.
Proof. cbv zeta. split; reflexivity. Qed.

Example login_discovery_fails :
  let w := start (new_client "http://localhost:5000") tt in
  let r := login bare (oauth_service (Body (VObj [("access_token", VStr "tok")])) Fails)
             "cid" "http://localhost:4000" [grant] w in
  fst r = Throws FetchError /\ this (snd r) = new_client "http://localhost:5000".
Proof. cbv zeta. split; reflexivity. Qed.

(** C4, as the code has it. For an authorization response without
    [code], [login] sends the token exchange with the assertion
    ["undefined"]; the step fails only when that fetch rejects, its body
    is not JSON, or its body is [null]. With any other body the exchange
    succeeds, the discovery fetch is sent, and [login] resolves with the
    body's [access_token] whenever discovery delivers a body that is not
    [null]. *)
Theorem login_without_code :
  forall (rt : Runtime) (S : Type) (serve : S -> Request -> response * S)
         (clientId origin : string) (props : list (string * value)) (w : @World S),
    assoc "type" props = Some (VStr "authorization_response") ->
    assoc "code" props = None ->
    let svc := serviceUrl (this w) in
    let sent := token_request svc "undefined" in
    let r := login rt serve clientId origin [VObj props] w in
    In (Fetch sent) (trace (snd r))
    /\ match serve (server w) sent with
       | (Fails, _) => fst r = Throws FetchError
       | (NotJSON, _) => fst r = Throws SyntaxError
       | (Body t, s1) =>
           match get rt t "access_token" with
           | None => fst r = Throws TypeError
           | Some tok =>
               In (Fetch (discovery_request svc)) (trace (snd r))
               /\ (forall d s2 l,
                     serve s1 (discovery_request svc) = (Body d, s2) ->
                     get rt d "links" = Some l ->
                     fst r = Returns tok)
           end
       end.
Proof.
  intros rt S serve clientId origin props w Htype Hcode. cbv zeta.
  rewrite login_unfold.
  assert (Hl : listen rt [VObj props]
               = {| registered := false; resolved := Some (VObj props) |}).
  { unfold listen. simpl fold_left. unfold deliver. simpl registered. cbv iota.
    now apply listener_takes_grant. }
  rewrite Hl. cbn [resolved].
  unfold opened. rewrite Hl. cbn [registered].
  run. proj.
  assert (Hc : get rt (VObj props) "code" = Some VUndef).
  { unfold get, own. now rewrite Hcode. }
  rewrite Hc. cbv beta iota.
  assert (Hs : exists st, get rt (VObj props) "state" = Some st) by (eexists; reflexivity).
  destruct Hs as (st & ->). cbn [to_string]. cbv beta iota. proj.
  destruct (serve (server w) (token_request (serviceUrl (this w)) "undefined"))
    as [[| |t] s1]; proj;
    try (split; [apply in_or_app; right; left; reflexivity | reflexivity]).
  destruct (get rt t "access_token") as [tok|]; cbv beta iota; proj;
    [|split; [apply in_or_app; right; left; reflexivity | reflexivity]].
  destruct (serve s1 (discovery_request (serviceUrl (this w))))
    as [[| |d] s2]; proj.
  - split; [apply in_or_app; left; apply in_or_app; right; left; reflexivity|].
    split; [apply in_or_app; right; left; reflexivity|]. discriminate.
  - split; [apply in_or_app; left; apply in_or_app; right; left; reflexivity|].
    split; [apply in_or_app; right; left; reflexivity|]. discriminate.
  - destruct (get rt d "links") as [l|] eqn:Hd; cbv beta iota; proj.
    + split; [apply in_or_app; left; apply in_or_app; right; left; reflexivity|].
      split; [apply in_or_app; right; left; reflexivity|]. reflexivity.
    + split; [apply in_or_app; left; apply in_or_app; right; left; reflexivity|].
      split; [apply in_or_app; right; left; reflexivity|].
      intros d' s2' l' [= <- <-] Hl'. congruence.
Qed.

Lemma login_without_code_witness :
  let serve := oauth_service (Body (VObj [("access_token", VStr "tok")]))
                 (Body (VObj [("links", routes)])) in
  let w := start (new_client "http://localhost:5000") tt in
  let r := login bare serve "cid" "http://localhost:4000" [grant_without_code] w in
  In (Fetch (token_request "http://localhost:5000" "undefined")) (trace (snd r))
  /\ (In (Fetch (discovery_request "http://localhost:5000")) (trace (snd r))
      /\ (forall d s2 l,
            serve tt (discovery_request "http://localhost:5000") = (Body d, s2) ->
            get bare d "links" = Some l ->
            fst r = Returns (VStr "tok"))).
Proof.
  exact (login_without_code bare unit
           (oauth_service (Body (VObj [("access_token", VStr "tok")]))
              (Body (VObj [("links", routes)])))
           "cid" "http://localhost:4000"
           [("type", VStr "authorization_response"); ("state", VStr "xyz")]
           (start (new_client "http://localhost:5000") tt) eq_refl eq_refl).
Defined.

(** C4 as stated fails: the response without [code] makes [login] send
    [assertion=undefined], and against a service that answers with a
    token the exchange succeeds and [login] resolves. *)
Lemma login_without_code_succeeds :
  let serve := oauth_service (Body (VObj [("access_token", VStr "tok")]))
                 (Body (VObj [("links", routes)])) in
  let r := login bare serve "cid" "http://localhost:4000" [grant_without_code]
             (start (new_client "http://localhost:5000") tt) in
  fst r = Returns (VStr "tok")
  /\ this (snd r) = logged_in
  /\ trace (snd r)
     = [AddListener;
        OpenWindow "http://localhost:5000/oauth/authorize?client_id=cid&response_type=code&response_mode=web_message&origin=http://localhost:4000";
        RemoveListener;
        Fetch (token_request "http://localhost:5000" "undefined");
        Fetch (discovery_request "http://localhost:5000")].
Proof. cbv zeta. repeat split. Qed.

(** *** fetchAll *)

Lemma Z_of_to_string (z : Z) : Z_of_string (Z_to_string z) = Some z.
Proof.
  unfold Z_of_string, Z_to_string.
  rewrite NilZero.isi.
  - simpl. now rewrite DecimalZ.of_to.
  - destruct z; simpl; try discriminate;
      intros [= H]; now apply DecimalPos.Unsigned.to_uint_nonnil in H.
  - destruct z; simpl; try discriminate;
      intros [= H]; now apply DecimalPos.Unsigned.to_uint_nonnil in H.
Qed.

Section Paging.

Context {S : Type}.
Variable rt : Runtime.
Variable serve : S -> Request -> response * S.

(** A session in which [search] names a leaf of the route table. *)
Variable c : Session.
Variables (verb : value) (u href : string) (hs : list (string * string)).
Hypothesis search_leaf : leaf_at (links c) ["search"] verb u.
Hypothesis search_url : URL_parse rt u = Some href.
Hypothesis search_auth : bearer rt (token c) hs.

Lemma search_call (n : nat) (w : @World S) :
  this w = c ->
  request rt serve "search" VNull
    [("offset", VNum (Z.of_nat n)); ("limit", VNum 1000)] w
  = fetch_json serve (search_request href verb hs n) w.
Proof.
  intros Hc. unfold search_request, offset_query.
  apply request_resolves with (u := u).
  - now rewrite Hc.
  - exact search_url.
  - repeat constructor.
  - now rewrite Hc.
Qed.

(** One round of the loop that is answered with a page. *)
Lemma fetchAll_round (fuel : nat) (anns page : list value)
    (total b total' rows : value) (w : @World S) (s' : S) :
  this w = c ->
  again rt (List.length anns) total = Some true ->
  serve (server w) (search_request href verb hs (List.length anns)) = (Body b, s') ->
  get rt b "total" = Some total' ->
  get rt b "rows" = Some rows ->
  spread rows = Some page ->
  fetchAll_loop rt serve (Datatypes.S fuel) anns total w
  = fetchAll_loop rt serve fuel (anns ++ page) total'
      (after href verb hs w s' (List.length anns)).
Proof.
  intros Hc Hmore Hserve Ht Hr Hp.
  cbn [fetchAll_loop]. unfold more, bind at 1, or_TypeError.
  rewrite Hmore. unfold ret at 1. cbv beta iota.
  unfold bind at 1. rewrite (search_call _ w Hc).
  unfold fetch_json. rewrite Hserve. cbv beta iota.
  unfold bind, or_TypeError, ret. rewrite Ht. cbv beta iota.
  rewrite Hr. cbv beta iota. rewrite Hp. reflexivity.
Qed.

(** The loop ends when the test fails. *)
Lemma fetchAll_stop (fuel : nat) (anns : list value) (total : value) (w : @World S) :
  again rt (List.length anns) total = Some false ->
  fetchAll_loop rt serve fuel anns total w = (Returns anns, w).
Proof.
  intros Hmore. destruct fuel; cbn [fetchAll_loop];
    unfold more, bind, or_TypeError; now rewrite Hmore.
Qed.

(** [fetchAll] enters the loop with no rows and no total. *)
Lemma fetchAll_start (fuel : nat) (w : @World S) :
  fetchAll rt serve fuel w = fetchAll_loop rt serve fuel [] VNull w.
Proof. reflexivity. Qed.

End Paging.

(** The answer of the paging service to the request at offset [n]. *)
Lemma search_service_page (data : list value) (page n : nat)
    (href : string) (verb : value) (hs : list (string * string)) :
  search_service data page tt (search_request href verb hs n)
  = (Body (VObj [("total", VNum (Z.of_nat (List.length data)));
                 ("rows", VArr (firstn (Nat.min page 1000) (skipn n data)))]), tt).
Proof.
  unfold search_service, search_request, offset_query.
  cbn [query assoc String.eqb Ascii.eqb Bool.eqb].
  rewrite Z_of_to_string.
  change (Z_of_string "1000") with (Some 1000%Z). cbv beta iota.
  rewrite Nat2Z.id.
  replace (Z.to_nat 1000) with 1000%nat by (symmetry; apply (Nat2Z.id 1000)).
  reflexivity.
Qed.

Lemma firstn_plus {A : Type} (n m : nat) :
  forall l : list A, firstn (n + m) l = firstn n l ++ firstn m (skipn n l).
Proof.
  induction n as [|n IH]; intros l; simpl.
  - reflexivity.
  - destruct l as [|x l]; simpl.
    + now rewrite firstn_nil.
    + now rewrite IH.
Qed.

Lemma again_number (rt : Runtime) (n : nat) (z : Z) :
  again rt n (VNum z) = Some (Z.of_nat n <? z)%Z.
Proof. reflexivity. Qed.

Section PagedSearch.

Variable rt : Runtime.
Variable c : Session.
Variables (verb : value) (u href : string) (hs : list (string * string)).
Hypothesis search_leaf : leaf_at (links c) ["search"] verb u.
Hypothesis search_url : URL_parse rt u = Some href.
Hypothesis search_auth : bearer rt (token c) hs.

Variable data : list value.
Variable page : nat.

(** A round against the paging service: the rows held so far are a
    prefix of the data, and the page extends the prefix. *)
Lemma paging_round (fuel n : nat) (total : value) (w : @World unit) :
  this w = c ->
  n <= List.length data ->
  again rt n total = Some true ->
  fetchAll_loop rt (search_service data page) (Datatypes.S fuel) (firstn n data) total w
  = fetchAll_loop rt (search_service data page) fuel
      (firstn (n + Nat.min page 1000) data)
      (VNum (Z.of_nat (List.length data)))
      (after href verb hs w tt n).
Proof.
  intros Hc Hn Hmore.
  assert (Hlen : List.length (firstn n data) = n) by now apply firstn_length_le.
  rewrite (fetchAll_round rt (search_service data page) c verb u href hs
             search_leaf search_url search_auth fuel (firstn n data)
             (firstn (Nat.min page 1000) (skipn n data)) total
             (VObj [("total", VNum (Z.of_nat (List.length data)));
                    ("rows", VArr (firstn (Nat.min page 1000) (skipn n data)))])
             (VNum (Z.of_nat (List.length data)))
             (VArr (firstn (Nat.min page 1000) (skipn n data))) w tt Hc).
  - now rewrite Hlen, <- firstn_plus.
  - now rewrite Hlen.
  - rewrite Hlen. destruct (server w). apply search_service_page.
  - reflexivity.
  - reflexivity.
  - reflexivity.
Qed.

(** With all the data held and the total known, the loop returns them. *)
Lemma paging_stop (fuel n : nat) (w : @World unit) :
  List.length data <= n ->
  fetchAll_loop rt (search_service data page) fuel (firstn n data)
    (VNum (Z.of_nat (List.length data))) w
  = (Returns data, w).
Proof.
  intros Hn. rewrite (firstn_all2 data Hn).
  apply fetchAll_stop. rewrite again_number. now rewrite Z.ltb_irrefl.
Qed.

End PagedSearch.

(** C7. Against a search endpoint that holds 2500 records, reports
    [total = 2500] and serves 1000 rows per request, [fetchAll] (given
    fuel for three rounds or more) issues exactly three fetches, with
    the query [offset=0], [offset=1000] and [offset=2000] and
    [limit=1000] each, and returns the 2500 records in their order. *)
Theorem fetchAll_2500 :
  forall (rt : Runtime) (c : Session) (verb : value) (u href : string)
         (hs : list (string * string)) (data : list value) (fuel : nat)
         (w : @World unit),
    leaf_at (links c) ["search"] verb u ->
    URL_parse rt u = Some href ->
    bearer rt (token c) hs ->
    this w = c ->
    List.length data = 2500 ->
    3 <= fuel ->
    fetchAll rt (search_service data 1000) fuel w
    = (Returns data,
       {| this := c; server := tt;
          trace := trace w ++ map (fun n => Fetch (search_request href verb hs n))
                                [0; 1000; 2000] |})
    /\ map (fun n => query (search_request href verb hs n)) [0; 1000; 2000]
       = [ [("offset", "0"); ("limit", "1000")];
           [("offset", "1000"); ("limit", "1000")];
           [("offset", "2000"); ("limit", "1000")] ].
Proof.
  intros rt c verb u href hs data fuel w Hleaf Hurl Hauth Hc Hlen Hfuel.
  split; [|vm_compute; reflexivity].
  destruct fuel as [|[|[|fuel]]]; try lia.
  rewrite fetchAll_start. change (@nil value) with (firstn 0 data).
  rewrite (paging_round rt c verb u href hs Hleaf Hurl Hauth data 1000 _ 0 VNull w Hc);
    [|lia|reflexivity].
  rewrite Nat.min_id, Nat.add_0_l.
  rewrite (paging_round rt c verb u href hs Hleaf Hurl Hauth data 1000 _ 1000);
    [|exact Hc|rewrite Hlen; lia|rewrite Hlen; vm_compute; reflexivity].
  rewrite Nat.min_id.
  rewrite (paging_round rt c verb u href hs Hleaf Hurl Hauth data 1000 _ (1000 + 1000));
    [|exact Hc|rewrite Hlen; lia|rewrite Hlen; vm_compute; reflexivity].
  rewrite Nat.min_id.
  rewrite paging_stop by (rewrite Hlen; lia).
  unfold after. cbn [this server trace map]. rewrite Hc.
  repeat rewrite <- app_assoc. reflexivity.
Qed.

Lemma fetchAll_2500_witness :
  fetchAll bare (search_service (records 2500) 1000) 3 (start logged_in tt)
  = (Returns (records 2500),
     {| this := logged_in; server := tt;
        trace := [] ++ map (fun n => Fetch (search_request
                                             "http://localhost:5000/api/search"
                                             (VStr "GET")
                                             [("Authorization", "Bearer tok")] n))
                         [0; 1000; 2000] |})
  /\ map (fun n => query (search_request "http://localhost:5000/api/search"
                            (VStr "GET") [("Authorization", "Bearer tok")] n))
         [0; 1000; 2000]
     = [ [("offset", "0"); ("limit", "1000")];
         [("offset", "1000"); ("limit", "1000")];
         [("offset", "2000"); ("limit", "1000")] ].
Proof.
  apply (fetchAll_2500 bare logged_in (VStr "GET")
           "http://localhost:5000/api/search" "http://localhost:5000/api/search"
           [("Authorization", "Bearer tok")] (records 2500) 3 (start logged_in tt)).
  - eexists. repeat split; reflexivity.
  - reflexivity.
  - eexists. split; reflexivity.
  - reflexivity.
  - unfold records. now rewrite length_map, length_seq.
  - lia.
Defined.

Section FirstAnswer.

Context {S : Type}.
Variable rt : Runtime.
Variable serve : S -> Request -> response * S.

(** An answer that has a [total] has [rows] (which may be [undefined]). *)
Lemma rows_beside_total (b total : value) :
  get rt b "total" = Some total -> exists rows, get rt b "rows" = Some rows.
Proof. destruct b; simpl; try discriminate; eauto. Qed.

(** A round that is answered with rows that cannot be spread. *)
Lemma fetchAll_round_throws (c : Session) (verb : value) (u href : string)
    (hs : list (string * string)) (fuel : nat) (anns : list value)
    (total b total' rows : value) (w : @World S) (s' : S) :
  leaf_at (links c) ["search"] verb u ->
  URL_parse rt u = Some href ->
  bearer rt (token c) hs ->
  this w = c ->
  again rt (List.length anns) total = Some true ->
  serve (server w) (search_request href verb hs (List.length anns)) = (Body b, s') ->
  get rt b "total" = Some total' ->
  get rt b "rows" = Some rows ->
  spread rows = None ->
  fetchAll_loop rt serve (Datatypes.S fuel) anns total w
  = (Throws TypeError, after href verb hs w s' (List.length anns)).
Proof.
  intros Hleaf Hurl Hauth Hc Hmore Hserve Ht Hr Hp.
  cbn [fetchAll_loop]. unfold more, bind at 1, or_TypeError.
  rewrite Hmore. unfold ret at 1. cbv beta iota.
  unfold bind at 1.
  rewrite (search_call rt serve c verb u href hs Hleaf Hurl Hauth _ w Hc).
  unfold fetch_json. rewrite Hserve. cbv beta iota.
  unfold bind, or_TypeError, ret. rewrite Ht. cbv beta iota.
  rewrite Hr. cbv beta iota. rewrite Hp. reflexivity.
Qed.

End FirstAnswer.

(** C8, as the code has it. When the first answer to the search reports
    [total = 0], the fetch at offset 0 is the only one that [fetchAll]
    makes, and [fetchAll] returns the rows of that answer: the empty
    sequence exactly when these rows are empty; when they cannot be
    spread it throws a TypeError. *)
Theorem fetchAll_total_zero :
  forall (rt : Runtime) (S : Type) (serve : S -> Request -> response * S)
         (c : Session) (verb : value) (u href : string)
         (hs : list (string * string)) (b : value) (s' : S) (fuel : nat)
         (w : @World S),
    leaf_at (links c) ["search"] verb u ->
    URL_parse rt u = Some href ->
    bearer rt (token c) hs ->
    this w = c ->
    serve (server w) (search_request href verb hs 0) = (Body b, s') ->
    get rt b "total" = Some (VNum 0) ->
    exists rows,
      get rt b "rows" = Some rows
      /\ fetchAll rt serve (Datatypes.S fuel) w
         = (match spread rows with
            | Some page => Returns page
            | None => Throws TypeError
            end,
            {| this := c; server := s';
               trace := trace w ++ [Fetch (search_request href verb hs 0)] |})
      /\ (fst (fetchAll rt serve (Datatypes.S fuel) w) = Returns []
          <-> spread rows = Some []).
Proof.
  intros rt S serve c verb u href hs b s' fuel w Hleaf Hurl Hauth Hc Hserve Ht.
  destruct (rows_beside_total rt b (VNum 0) Ht) as (rows & Hr).
  exists rows. split; [exact Hr|].
  assert (Hrun : fetchAll rt serve (Datatypes.S fuel) w
                 = (match spread rows with
                    | Some page => Returns page
                    | None => Throws TypeError
                    end,
                    {| this := c; server := s';
                       trace := trace w ++ [Fetch (search_request href verb hs 0)] |})).
  { rewrite fetchAll_start. destruct (spread rows) as [page|] eqn:Hp.
    - rewrite (fetchAll_round rt serve c verb u href hs Hleaf Hurl Hauth fuel
                 [] page VNull b (VNum 0) rows w s' Hc eq_refl Hserve Ht Hr Hp).
      rewrite fetchAll_stop.
      + unfold after. cbn [List.length]. now rewrite Hc.
      + rewrite again_number. f_equal. apply Z.ltb_ge. lia.
    - rewrite (fetchAll_round_throws rt serve c verb u href hs fuel [] VNull b
                 (VNum 0) rows w s' Hleaf Hurl Hauth Hc eq_refl Hserve Ht Hr Hp).
      unfold after. cbn [List.length]. now rewrite Hc. }
  split; [exact Hrun|]. rewrite Hrun. cbn [fst].
  destruct (spread rows) as [page|]; split; intros H;
    try discriminate; congruence.
Qed.

Lemma fetchAll_total_zero_witness :
  exists rows,
    get bare (VObj [("total", VNum 0); ("rows", VArr [])]) "rows" = Some rows
    /\ fetchAll bare (search_service [] 1000) 1 (start logged_in tt)
       = (match spread rows with
          | Some page => Returns page
          | None => Throws TypeError
          end,
          {| this := logged_in; server := tt;
             trace := [] ++ [Fetch (search_request "http://localhost:5000/api/search"
                                      (VStr "GET") [("Authorization", "Bearer tok")] 0)] |})
    /\ (fst (fetchAll bare (search_service [] 1000) 1 (start logged_in tt)) = Returns []
        <-> spread rows = Some []).
Proof.
  apply (fetchAll_total_zero bare unit (search_service [] 1000) logged_in (VStr "GET")
           "http://localhost:5000/api/search" "http://localhost:5000/api/search"
           [("Authorization", "Bearer tok")]
           (VObj [("total", VNum 0); ("rows", VArr [])]) tt 0 (start logged_in tt)).
  - eexists. repeat split; reflexivity.
  - reflexivity.
  - eexists. split; reflexivity.
  - reflexivity.
  - reflexivity.
  - reflexivity.
Defined.

(** C8 as stated fails: a first answer that reports [total = 0] beside a
    row makes [fetchAll] return that row, not the empty sequence, after
    its one fetch. *)
Lemma fetchAll_total_zero_with_rows :
  let serve := fun (_ : unit) (_ : Request) =>
                 (Body (VObj [("total", VNum 0); ("rows", VArr [VStr "x"])]), tt) in
  let r := fetchAll bare serve 2 (start logged_in tt) in
  fst r = Returns [VStr "x"]
  /\ fst r <> Returns []
  /\ trace (snd r)
     = [Fetch (search_request "http://localhost:5000/api/search"
                 (VStr "GET") [("Authorization", "Bearer tok")] 0)].
Proof. cbv zeta. repeat split. discriminate. Qed.

(** *** Termination of the loop *)

Section Termination.

Context {S : Type}.
Variable rt : Runtime.
Variable serve : S -> Request -> response * S.

Lemma walk_settles (name : string) (path : list string) :
  forall (table : value) (w : @World S),
    (exists meta, walk rt name table path w = (Returns meta, w))
    \/ (exists e, walk rt name table path w = (Throws e, w)).
Proof.
  induction path as [|seg rest IH]; intros table w; simpl.
  - left. now exists table.
  - unfold bind, or_TypeError.
    destruct (get rt table seg) as [v|]; [|right; now exists TypeError].
    unfold ret. destruct (truthy v); simpl.
    + apply IH.
    + right. now eexists.
Qed.

(** The call that [fetchAll] makes throws before sending or is one
    fetch with the query of the offset. *)
Lemma search_call_shape (n : nat) (w : @World S) :
  let call := request rt serve "search" VNull
                [("offset", VNum (Z.of_nat n)); ("limit", VNum 1000)] in
  (exists e, call w = (Throws e, w))
  \/ (exists r, query r = offset_query n /\ call w = fetch_json serve r w).
Proof.
  cbv zeta. unfold request. unfold bind, self.
  destruct (walk_settles "search" (split "." "search") (links (this w)) w)
    as [(meta & ->)|(e & ->)]; [|left; now exists e].
  unfold dispatch. cbn [append_params to_string]. run.
  repeat match goal with
         | |- context [match ?x with Some _ => _ | None => _ end] =>
             destruct x; cbv beta iota
         | |- context [if ?b then _ else _] => destruct b; cbv beta iota
         end;
    try (left; eexists; reflexivity);
    right; eexists; (split; [|reflexivity]); reflexivity.
Qed.

(** One round of the loop, case by case. *)
Lemma fetchAll_loop_round (fuel : nat) (anns : list value) (total : value)
    (w : @World S) :
  fetchAll_loop rt serve (Datatypes.S fuel) anns total w
  = match again rt (List.length anns) total with
    | None => (Throws TypeError, w)
    | Some false => (Returns anns, w)
    | Some true =>
        match request rt serve "search" VNull
                [("offset", VNum (Z.of_nat (List.length anns))); ("limit", VNum 1000)] w
        with
        | (Returns searchResult, w') =>
            match get rt searchResult "total" with
            | None => (Throws TypeError, w')
            | Some total' =>
                match get rt searchResult "rows" with
                | None => (Throws TypeError, w')
                | Some rows =>
                    match spread rows with
                    | None => (Throws TypeError, w')
                    | Some page => fetchAll_loop rt serve fuel (anns ++ page) total' w'
                    end
                end
            end
        | (Throws e, w') => (Throws e, w')
        | (Unsettled, w') => (Unsettled, w')
        end
    end.
Proof.
  cbn [fetchAll_loop]. cbv [more bind ret throw or_TypeError].
  destruct (again rt (List.length anns) total) as [[|]|]; try reflexivity.
  destruct (request rt serve "search" VNull _ w) as [[sr|e|] w']; try reflexivity.
  destruct (get rt sr "total"); [|reflexivity].
  destruct (get rt sr "rows") as [rows|]; [|reflexivity].
  destruct (spread rows); reflexivity.
Qed.

(** The loop test, once false, stays false as rows are added. *)
Lemma again_not_true_mono (n n' : nat) (total : value) :
  again rt n total <> Some true -> n <= n' -> again rt n' total <> Some true.
Proof.
  unfold again, lt_value. destruct total; try (intros H _; exact H);
    try (destruct (to_number rt _) as [[z|]|]; simpl; try discriminate;
         intros H Hn [= H']; apply H; f_equal;
         apply Z.ltb_lt in H'; apply Z.ltb_lt; lia).
Qed.

(** When the test does not hold, the loop settles at once. *)
Lemma loop_settles_now (fuel : nat) (anns : list value) (total : value) (w : @World S) :
  again rt (List.length anns) total <> Some true ->
  fst (fetchAll_loop rt serve fuel anns total w) <> Unsettled.
Proof.
  intros H. destruct fuel; cbn [fetchAll_loop]; unfold more, bind, or_TypeError;
    destruct (again rt (List.length anns) total) as [[|]|]; try discriminate;
    now elim H.
Qed.

Hypothesis progress : makes_progress rt serve.
Variable bound : nat.
Hypothesis bounded : totals_below rt serve bound.

Lemma loop_settles (k : nat) :
  forall (fuel : nat) (anns : list value) (total : value) (w : @World S),
    (forall m, again rt m total = Some true -> m < bound) ->
    bound <= List.length anns + k ->
    k <= fuel ->
    fst (fetchAll_loop rt serve fuel anns total w) <> Unsettled.
Proof.
  induction k as [|k IH]; intros fuel anns total w Htot Hk Hfuel.
  - apply loop_settles_now. intros H. apply Htot in H. lia.
  - destruct fuel as [|fuel]; [lia|].
    rewrite fetchAll_loop_round.
    destruct (again rt (List.length anns) total) as [[|]|] eqn:Hmore;
      try discriminate.
    destruct (search_call_shape (List.length anns) w) as [(e & ->)|(r & Hq & ->)];
      [discriminate|].
    unfold fetch_json.
    destruct (serve (server w) r) as [[| |b] s'] eqn:Hserve; try discriminate.
    destruct (get rt b "total") as [total'|] eqn:Ht; [|discriminate].
    destruct (get rt b "rows") as [rows|] eqn:Hr; [|discriminate].
    destruct (spread rows) as [page|] eqn:Hp; [|discriminate].
    destruct (again rt (List.length anns) total') as [[|]|] eqn:Hmore'.
    + apply IH.
      * intros m. now apply (bounded _ _ _ _ _ m Hserve Ht).
      * assert (page <> []) by
          now apply (progress _ _ _ _ _ _ _ _ Hq Hserve Ht Hr Hp Hmore').
        rewrite length_app. destruct page; [congruence|simpl; lia].
      * lia.
    + apply loop_settles_now. apply again_not_true_mono with (n := List.length anns).
      * now rewrite Hmore'.
      * rewrite length_app. lia.
    + apply loop_settles_now. apply again_not_true_mono with (n := List.length anns).
      * now rewrite Hmore'.
      * rewrite length_app. lia.
Qed.

(** From the start, one round more: the first test holds whatever the
    service will report. *)
Lemma fetchAll_settles (fuel : nat) (w : @World S) :
  bound < fuel -> fst (fetchAll rt serve fuel w) <> Unsettled.
Proof.
  intros Hfuel. destruct fuel as [|fuel]; [lia|].
  unfold fetchAll. rewrite fetchAll_loop_round. cbn [again List.length].
  destruct (search_call_shape 0 w) as [(e & ->)|(r & Hq & ->)]; [discriminate|].
  unfold fetch_json.
  destruct (serve (server w) r) as [[| |b] s'] eqn:Hserve; try discriminate.
  destruct (get rt b "total") as [total'|] eqn:Ht; [|discriminate].
  destruct (get rt b "rows") as [rows|] eqn:Hr; [|discriminate].
  destruct (spread rows) as [page|] eqn:Hp; [|discriminate].
  apply loop_settles with (k := bound).
  - intros m. now apply (bounded _ _ _ _ _ m Hserve Ht).
  - lia.
  - lia.
Qed.

End Termination.

Section Stall.

Context {S : Type}.
Variable rt : Runtime.
Variable serve : S -> Request -> response * S.
Variable c : Session.
Variables (verb : value) (u href : string) (hs : list (string * string)).
Hypothesis search_leaf : leaf_at (links c) ["search"] verb u.
Hypothesis search_url : URL_parse rt u = Some href.
Hypothesis search_auth : bearer rt (token c) hs.

(** Against a service that stalls at the number of rows held, every
    round repeats the same fetch and the loop uses up any fuel. *)
Lemma loop_stalls (anns : list value) :
  stalls rt serve (search_request href verb hs (List.length anns)) (List.length anns) ->
  forall (fuel : nat) (total : value) (w : @World S),
    this w = c ->
    again rt (List.length anns) total = Some true ->
    fst (fetchAll_loop rt serve fuel anns total w) = Unsettled
    /\ trace (snd (fetchAll_loop rt serve fuel anns total w))
       = trace w ++ repeat (Fetch (search_request href verb hs (List.length anns))) fuel.
Proof.
  intros Hstall. induction fuel as [|fuel IH]; intros total w Hc Hmore.
  - cbn [fetchAll_loop]. unfold more, bind, or_TypeError. rewrite Hmore.
    simpl. now rewrite app_nil_r.
  - destruct (Hstall (server w)) as (b & s' & total' & rows & Hs & Ht & Hr & Hp & Hag).
    rewrite (fetchAll_round rt serve c verb u href hs search_leaf search_url
               search_auth fuel anns [] total b total' rows w s' Hc Hmore Hs Ht Hr Hp).
    rewrite app_nil_r.
    destruct (IH total' (after href verb hs w s' (List.length anns)) Hc Hag)
      as (Hout & Htrace).
    split; [exact Hout|]. rewrite Htrace. unfold after. cbn [trace repeat].
    now rewrite <- app_assoc.
Qed.

End Stall.

(** The paging service makes progress and its totals are bounded. *)
Lemma search_service_progress (rt : Runtime) (data : list value) (page : nat) :
  0 < page -> makes_progress rt (search_service data page).
Proof.
  intros Hpage s r n b s' total rows pg Hq Hs Ht Hr Hp Hmore.
  unfold search_service in Hs. rewrite Hq in Hs. unfold offset_query in Hs.
  cbn [assoc String.eqb Ascii.eqb Bool.eqb] in Hs.
  rewrite Z_of_to_string in Hs.
  change (Z_of_string "1000") with (Some 1000%Z) in Hs. cbv beta iota in Hs.
  rewrite Nat2Z.id in Hs.
  replace (Z.to_nat 1000) with 1000%nat in Hs by (symmetry; apply (Nat2Z.id 1000)).
  injection Hs as <- _.
  injection Ht as <-. injection Hr as <-. injection Hp as <-.
  rewrite again_number in Hmore. injection Hmore as Hlt.
  apply Z.ltb_lt in Hlt. apply Nat2Z.inj_lt in Hlt.
  destruct (skipn n data) as [|x rest] eqn:Hskip.
  - apply (f_equal (@List.length value)) in Hskip.
    rewrite length_skipn in Hskip. simpl in Hskip. lia.
  - destruct (Nat.min page 1000) as [|m] eqn:Hmin; [lia|]. discriminate.
Qed.

Lemma search_service_totals (rt : Runtime) (data : list value) (page : nat) :
  totals_below rt (search_service data page) (List.length data).
Proof.
  intros s r b s' total m Hs Ht Hmore.
  unfold search_service in Hs.
  destruct (assoc "offset" (query r)) as [o|]; [|discriminate].
  destruct (assoc "limit" (query r)) as [l|]; [|discriminate].
  destruct (Z_of_string o) as [off|]; [|discriminate].
  destruct (Z_of_string l) as [lim|]; [|discriminate].
  injection Hs as <- _. injection Ht as <-.
  rewrite again_number in Hmore. injection Hmore as Hlt.
  apply Z.ltb_lt in Hlt. now apply Nat2Z.inj_lt in Hlt.
Qed.

(** Against the growing service the loop test holds at every round. *)
Lemma growing_loop (fuel : nat) :
  forall (k : nat) (anns : list value) (total : value) (tr : list event),
    List.length anns = k ->
    again bare k total = Some true ->
    fst (fetchAll_loop bare growing_service fuel anns total
           {| this := logged_in; server := k; trace := tr |}) = Unsettled.
Proof.
  induction fuel as [|fuel IH]; intros k anns total tr Hlen Hmore.
  - cbn [fetchAll_loop]. unfold more, bind, or_TypeError. rewrite Hlen, Hmore.
    reflexivity.
  - rewrite (fetchAll_round bare growing_service logged_in (VStr "GET")
               "http://localhost:5000/api/search" "http://localhost:5000/api/search"
               [("Authorization", "Bearer tok")]) with
      (page := [VNum (Z.of_nat k)])
      (b := VObj [("total", VNum (Z.of_nat (k + 2))); ("rows", VArr [VNum (Z.of_nat k)])])
      (total' := VNum (Z.of_nat (k + 2))) (rows := VArr [VNum (Z.of_nat k)])
      (s' := Datatypes.S k).
    + unfold after. cbn [this server trace]. apply IH.
      * rewrite length_app. simpl. lia.
      * rewrite again_number. f_equal. apply Z.ltb_lt. lia.
    + eexists. repeat split; reflexivity.
    + reflexivity.
    + eexists. split; reflexivity.
    + reflexivity.
    + now rewrite Hlen.
    + reflexivity.
    + reflexivity.
    + reflexivity.
    + reflexivity.
Qed.




(** *** Further properties of the methods *)

Section Frame.

Context {S : Type}.
Variable rt : Runtime.
Variable serve : S -> Request -> response * S.

Lemma keeps_ret {A : Type} (a : A) : keeps_session (S := S) (ret a).
Proof. intros w. reflexivity. Qed.

Lemma keeps_or_TypeError {A : Type} (o : option A) :
  keeps_session (S := S) (or_TypeError o).
Proof. intros w. destruct o; reflexivity. Qed.

Lemma keeps_self : keeps_session (@self S).
Proof. intros w. reflexivity. Qed.

Lemma keeps_fetch_json (r : Request) : keeps_session (fetch_json serve r).
Proof.
  intros w. unfold fetch_json.
  destruct (serve (server w) r) as [[| |v] s']; reflexivity.
Qed.

Lemma keeps_bind {A B : Type} (m : @M S A) (f : A -> @M S B) :
  keeps_session m -> (forall a, keeps_session (f a)) -> keeps_session (bind m f).
Proof.
  intros Hm Hf w. unfold bind. specialize (Hm w).
  destruct (m w) as [[a|e|] w']; simpl in *; try exact Hm.
  now rewrite Hf.
Qed.

Lemma keeps_walk (name : string) (path : list string) :
  forall table, keeps_session (walk (S := S) rt name table path).
Proof.
  induction path as [|seg rest IH]; intros table; simpl.
  - apply keeps_ret.
  - apply keeps_bind; [apply keeps_or_TypeError|]. intros v.
    destruct (truthy v); simpl; [apply IH|]. intros w. reflexivity.
Qed.

Lemma keeps_append_params (params : list (string * value)) :
  keeps_session (append_params (S := S) rt params).
Proof.
  induction params as [|[k v] rest IH]; simpl.
  - apply keeps_ret.
  - apply keeps_bind; [apply keeps_or_TypeError|]. intros s.
    apply keeps_bind; [exact IH|]. intros q. apply keeps_ret.
Qed.

Lemma keeps_authorization (tok : value) :
  keeps_session (authorization (S := S) rt tok).
Proof.
  unfold authorization. destruct (truthy tok).
  - apply keeps_bind; [apply keeps_or_TypeError|]. intros s. apply keeps_ret.
  - apply keeps_ret.
Qed.

Lemma keeps_request (name : string) (data : value) (params : list (string * value)) :
  keeps_session (request rt serve name data params).
Proof.
  unfold request, dispatch.
  repeat first
    [ apply keeps_fetch_json
    | apply keeps_bind; [ first [ apply keeps_self
                                | apply keeps_walk
                                | apply keeps_authorization
                                | apply keeps_or_TypeError
                                | apply keeps_append_params ] | intros ? ] ].
Qed.

Lemma keeps_fetchAll_loop (fuel : nat) :
  forall anns total, keeps_session (fetchAll_loop rt serve fuel anns total).
Proof.
  induction fuel as [|fuel IH]; intros anns total; cbn [fetchAll_loop].
  - apply keeps_bind; [apply keeps_or_TypeError|]. intros [|].
    + intros w. reflexivity.
    + apply keeps_ret.
  - apply keeps_bind; [apply keeps_or_TypeError|]. intros [|]; [|apply keeps_ret].
    apply keeps_bind; [apply keeps_request|]. intros sr.
    apply keeps_bind; [apply keeps_or_TypeError|]. intros total'.
    apply keeps_bind; [apply keeps_or_TypeError|]. intros rows.
    apply keeps_bind; [apply keeps_or_TypeError|]. intros page.
    apply IH.
Qed.

End Frame.

(** X2. [request] and [fetchAll] do not change the fields of the client,
    however they end: the token and the route table change in [login]
    and [logout] only. *)
Theorem request_keeps_session :
  forall (rt : Runtime) (S : Type) (serve : S -> Request -> response * S)
         (name : string) (data : value) (params : list (string * value))
         (fuel : nat) (w : @World S),
    this (snd (request rt serve name data params w)) = this w
    /\ this (snd (fetchAll rt serve fuel w)) = this w.
Proof.
  intros rt S serve name data params fuel w. split.
  - apply keeps_request.
  - apply keeps_fetchAll_loop.
Qed.

(** X1. A segment that is absent from the node reached, and is not a name
    of [Object.prototype], makes [request] fail with Unknown Method,
    naming the method string in full, and nothing is sent. *)
Theorem request_absent_segment :
  forall (rt : Runtime) (S : Type) (serve : S -> Request -> response * S)
         (name seg : string) (prefix rest : list string)
         (props : list (string * value)) (data : value)
         (params : list (string * value)) (w : @World S),
    split "." name = prefix ++ seg :: rest ->
    descend (links (this w)) prefix = Some (VObj props) ->
    assoc seg props = None ->
    in_Object_prototype seg = false ->
    request rt serve name data params w
    = (Throws (Error ("Unknown method " ++ name)%string), w).
Proof.
  intros rt S serve name seg prefix rest props data params w Hs Hd Hown Hproto.
  now apply request_unknown_method with (seg := seg) (prefix := prefix)
                                        (rest := rest) (props := props).
Qed.

Lemma request_absent_segment_witness :
  request bare (search_service [] 1000) "profile.write.now" VNull []
    (start logged_in tt)
  = (Throws (Error "Unknown method profile.write.now"), start logged_in tt).
Proof.
  apply (request_absent_segment bare unit (search_service [] 1000)
           "profile.write.now" "write" ["profile"] ["now"]
           [("read", VObj [("method", VStr "GET");
                           ("url", VStr "http://localhost:5000/api/profile")])]
           VNull [] (start logged_in tt));
    reflexivity.
Defined.

(** X3. Messages that are not objects, and [null], leave the listener
    waiting; the first authorization response after them settles the
    promise with its payload and removes the listener, and no later
    message is seen. *)
Theorem listener_settles_on_grant :
  forall (rt : Runtime) (noise later : list value) (props : list (string * value)),
    Forall (fun m => typeof_object m = false \/ m = VNull) noise ->
    assoc "type" props = Some (VStr "authorization_response") ->
    listen rt noise = waiting
    /\ listen rt (noise ++ VObj props :: later)
       = {| registered := false; resolved := Some (VObj props) |}.
Proof.
  intros rt noise later props Hnoise Htype.
  assert (Hwait : listen rt noise = waiting).
  { unfold listen. induction Hnoise as [|m ms Hm _ IH]; [reflexivity|].
    cbn [fold_left]. unfold deliver at 2. cbn [waiting registered].
    destruct Hm as [Hm | ->].
    - now rewrite listener_skips_non_object.
    - now rewrite listener_survives_null. }
  split; [exact Hwait|].
  unfold listen in *. rewrite fold_left_app, Hwait. cbn [fold_left].
  unfold deliver at 2. cbn [waiting registered].
  fold waiting. rewrite (listener_takes_grant rt props Htype).
  apply listen_removed.
Qed.

Lemma listener_settles_on_grant_witness :
  listen bare [VStr "hello"; VNull; VNum 3] = waiting
  /\ listen bare ([VStr "hello"; VNull; VNum 3] ++ grant :: [unrelated])
     = {| registered := false; resolved := Some grant |}.
Proof.
  apply (listener_settles_on_grant bare [VStr "hello"; VNull; VNum 3] [unrelated]
           [("type", VStr "authorization_response"); ("code", VStr "abc");
            ("state", VStr "xyz")]).
  - constructor; [left; reflexivity|].
    constructor; [right; reflexivity|].
    constructor; [left; reflexivity|]. constructor.
  - reflexivity.
Defined.

Section AllPages.

Variable rt : Runtime.
Variable c : Session.
Variables (verb : value) (u href : string) (hs : list (string * string)).
Hypothesis search_leaf : leaf_at (links c) ["search"] verb u.
Hypothesis search_url : URL_parse rt u = Some href.
Hypothesis search_auth : bearer rt (token c) hs.

Variable data : list value.
Variable page : nat.

(** With the total known, [k] more rounds fetch the rest of the data. *)
Lemma paging_all (k : nat) :
  forall (fuel n : nat) (w : @World unit),
    this w = c ->
    List.length data <= n + k * Nat.min page 1000 ->
    k <= fuel ->
    fst (fetchAll_loop rt (search_service data page) fuel (firstn n data)
           (VNum (Z.of_nat (List.length data))) w)
    = Returns data.
Proof.
  induction k as [|k IH]; intros fuel n w Hc Hk Hfuel.
  - rewrite (paging_stop rt data page fuel n w) by lia. reflexivity.
  - destruct (le_lt_dec (List.length data) n) as [Hdone | Hleft].
    + now rewrite (paging_stop rt data page fuel n w).
    + destruct fuel as [|fuel]; [lia|].
      rewrite (paging_round rt c verb u href hs search_leaf search_url search_auth
                 data page fuel n _ w Hc).
      * apply IH; [exact Hc | lia | lia].
      * lia.
      * rewrite again_number. f_equal. apply Z.ltb_lt. lia.
Qed.

End AllPages.

(** X4. Against a search endpoint that reports the number of its records as
    the total and serves a positive number of rows per request,
    [fetchAll] returns all the records, in their order, whatever their
    number and the page size. *)
Theorem fetchAll_collects_all_pages :
  forall (rt : Runtime) (c : Session) (verb : value) (u href : string)
         (hs : list (string * string)) (data : list value) (page fuel : nat)
         (w : @World unit),
    leaf_at (links c) ["search"] verb u ->
    URL_parse rt u = Some href ->
    bearer rt (token c) hs ->
    this w = c ->
    0 < page ->
    List.length data < fuel ->
    fst (fetchAll rt (search_service data page) fuel w) = Returns data.
Proof.
  intros rt c verb u href hs data page fuel w Hleaf Hurl Hauth Hc Hpage Hfuel.
  destruct fuel as [|fuel]; [lia|].
  rewrite fetchAll_start. change (@nil value) with (firstn 0 data).
  rewrite (paging_round rt c verb u href hs Hleaf Hurl Hauth data page fuel 0 VNull w Hc);
    [|lia|reflexivity].
  apply (paging_all rt c verb u href hs Hleaf Hurl Hauth data page fuel).
  - exact Hc.
  - assert (1 <= Nat.min page 1000) by lia. nia.
  - lia.
Qed.

Lemma fetchAll_collects_all_pages_witness :
  fst (fetchAll bare (search_service (records 7) 3) 8 (start logged_in tt))
  = Returns (records 7).
Proof.
  apply (fetchAll_collects_all_pages bare logged_in (VStr "GET")
           "http://localhost:5000/api/search" "http://localhost:5000/api/search"
           [("Authorization", "Bearer tok")] (records 7) 3 8 (start logged_in tt)).
  - eexists. repeat split; reflexivity.
  - reflexivity.
  - eexists. split; reflexivity.
  - reflexivity.
  - lia.
  - simpl. lia.
Defined.

(** ** The application *)

Import App.

(** *** parseUserid *)

Lemma string_app_nil_r (s : string) : (s ++ "")%string = s.
Proof. induction s as [|c s IH]; simpl; [reflexivity | now rewrite IH]. Qed.

Lemma string_app_assoc (a b c : string) :
  ((a ++ b) ++ c)%string = (a ++ b ++ c)%string.
Proof. induction a as [|x a IH]; simpl; [reflexivity | now rewrite IH]. Qed.

Lemma all_chars_app (cls : ascii -> bool) (a b : string) :
  all_chars cls (a ++ b)%string = all_chars cls a && all_chars cls b.
Proof.
  induction a as [|c a IH]; simpl; [reflexivity|].
  now rewrite IH, andb_assoc.
Qed.

Lemma prefix_app (a s : string) :
  String.prefix a s = true <-> exists r, s = (a ++ r)%string.
Proof.
  revert s. induction a as [|c a IH]; intros s; simpl.
  - destruct s; split; eauto.
  - destruct s as [|d s]; simpl.
    + split; [discriminate | intros (r & Hr); discriminate].
    + destruct (ascii_dec c d) as [->|Hne].
      * rewrite IH. split; intros (r & Hr); exists r; congruence.
      * split; [discriminate | intros (r & Hr); congruence].
Qed.

Section Greedy.

Context {R : Type}.
Variable cls : string -> bool.
Variable min : nat.
Variable k : string -> string -> option R.

(** A group takes every character of the class that it finds, when the
    rest of the pattern matches from there. *)
Lemma greedy_takes_all (cap : string) :
  forall (acc rest : string) (n : nat) (r : R),
    taken cls cap rest = true ->
    match rest with
    | EmptyString => True
    | String _ _ => cls rest = false
    end ->
    min <= n + String.length cap ->
    k (acc ++ cap)%string rest = Some r ->
    greedy cls min k n acc (cap ++ rest)%string = Some r.
Proof.
  induction cap as [|c cap IH]; intros acc rest n r Hall Hrest Hmin Hk.
  - rewrite string_app_nil_r in Hk. simpl in *.
    assert (Hle : (min <=? n)%nat = true) by (apply Nat.leb_le; lia).
    destruct rest as [|d rest']; simpl; rewrite ?Hrest, Hle; exact Hk.
  - simpl in Hall. apply andb_true_iff in Hall as [Hc Hall].
    simpl. rewrite Hc.
    rewrite (IH (acc ++ String c "")%string rest (Datatypes.S n) r Hall Hrest).
    + reflexivity.
    + simpl in Hmin. lia.
    + now rewrite string_app_assoc.
Qed.

(** What a group has taken is of the class and long enough, and the
    rest of the pattern matched what it left. *)
Lemma greedy_sound (s : string) :
  forall (acc : string) (n : nat) (r : R),
    greedy cls min k n acc s = Some r ->
    exists cap rest,
      s = (cap ++ rest)%string
      /\ taken cls cap rest = true
      /\ min <= n + String.length cap
      /\ k (acc ++ cap)%string rest = Some r.
Proof.
  induction s as [|d s IH]; intros acc n r H.
  - simpl in H. destruct (min <=? n)%nat eqn:Hle; [|discriminate].
    exists EmptyString, EmptyString. rewrite (string_app_nil_r acc).
    apply Nat.leb_le in Hle. repeat split; [simpl; lia | exact H].
  - simpl in H.
    assert (Hstop : (if (min <=? n)%nat then k acc (String d s) else None) = Some r ->
                    exists cap rest,
                      String d s = (cap ++ rest)%string
                      /\ taken cls cap rest = true
                      /\ min <= n + String.length cap
                      /\ k (acc ++ cap)%string rest = Some r).
    { intros Hs. destruct (min <=? n)%nat eqn:Hle; [|discriminate].
      exists EmptyString, (String d s). rewrite (string_app_nil_r acc).
      apply Nat.leb_le in Hle. repeat split; [simpl; lia | exact Hs]. }
    destruct (cls (String d s)) eqn:Hd; [|now apply Hstop].
    destruct (greedy cls min k (Datatypes.S n) (acc ++ String d "")%string s)
      as [m|] eqn:Hg; [|now apply Hstop].
    injection H as ->.
    destruct (IH _ _ _ Hg) as (cap & rest & -> & Hall & Hmin & Hk).
    exists (String d cap), rest. simpl. rewrite Hd, Hall.
    repeat split; [lia|]. now rewrite string_app_assoc in Hk.
Qed.

End Greedy.

Lemma exec_Lit (c : ascii) (p : list atom) (s : string) (caps r : list string) :
  exec (Lit c :: p) s caps = Some r ->
  exists s', s = String c s' /\ exec p s' caps = Some r.
Proof.
  simpl. destruct s as [|d s']; [discriminate|].
  destruct (Ascii.eqb_spec c d) as [->|]; [|discriminate].
  intros H. now exists s'.
Qed.

Lemma exec_Group (cls : string -> bool) (min : nat) (p : list atom) (s : string)
    (caps r : list string) :
  exec (Group cls min :: p) s caps = Some r ->
  exists cap rest,
    s = (cap ++ rest)%string
    /\ taken cls cap rest = true
    /\ min <= String.length cap
    /\ exec p rest (cap :: caps) = Some r.
Proof.
  change (exec (Group cls min :: p) s caps)
    with (greedy cls min (fun cap rest => exec p rest (cap :: caps)) 0 EmptyString s).
  intros H. apply greedy_sound in H.
  destruct H as (cap & rest & -> & Hall & Hmin & Hk).
  exists cap, rest. repeat split; assumption.
Qed.

Lemma exec_end (s : string) (caps r : list string) :
  exec [] s caps = Some r -> s = EmptyString /\ r = rev caps.
Proof. destruct s; simpl; [now intros [= <-] | discriminate]. Qed.

(** A class of one-byte characters looks at one byte only. *)
Lemma taken_starts (cls : ascii -> bool) (cap rest : string) :
  taken (starts cls) cap rest = all_chars cls cap.
Proof.
  induction cap as [|c cap IH]; simpl; [reflexivity | now rewrite IH].
Qed.

(** The group of [dot] takes the strings that hold no line terminator. *)
Lemma taken_dot_one_line (a : string) :
  taken dot a EmptyString = true <-> one_line a.
Proof.
  induction a as [|c a IH].
  - split; [|reflexivity]. intros _ t p q Hin Heq.
    destruct p; [|discriminate Heq]. simpl in Heq.
    destruct Hin as [<- | [<- | [<- | [<- | []]]]]; discriminate Heq.
  - cbn [taken]. rewrite (string_app_nil_r (String c a)), andb_true_iff, IH.
    split.
    + intros [Hd Ha] t p q Hin Heq.
      destruct p as [|d p].
      * unfold dot in Hd. apply negb_true_iff in Hd.
        assert (Hex : existsb (fun t => String.prefix t (String c a)) line_terminators
                      = true).
        { apply existsb_exists. exists t. split; [exact Hin|].
          apply prefix_app. now exists q. }
        congruence.
      * simpl in Heq. injection Heq as _ Heq. exact (Ha t p q Hin Heq).
    + intros H. split.
      * unfold dot. apply negb_true_iff.
        destruct (existsb _ line_terminators) eqn:Hex; [|reflexivity].
        apply existsb_exists in Hex. destruct Hex as (t & Hin & Hpre).
        apply prefix_app in Hpre. destruct Hpre as (q & Hq).
        now elim (H t EmptyString q Hin).
      * intros t p q Hin Heq. apply (H t (String c p) q Hin).
        simpl. now rewrite Heq.
Qed.

Lemma parseUserid_sound (s u a : string) :
  parseUserid s = Some {| username := u; authority := a |} ->
  s = ("acct:" ++ u ++ "@" ++ a)%string
  /\ u <> EmptyString
  /\ all_chars not_at u = true
  /\ one_line a.
Proof.
  unfold parseUserid, acct_re.
  destruct (exec _ s []) as [r|] eqn:He; [|discriminate].
  do 5 (apply exec_Lit in He; destruct He as (? & -> & He)).
  apply exec_Group in He. destruct He as (u' & rest & -> & Hu & Hlen & He).
  apply exec_Lit in He. destruct He as (rest' & -> & He).
  apply exec_Group in He. destruct He as (a' & rest'' & -> & Ha & _ & He).
  apply exec_end in He. destruct He as (-> & ->).
  simpl. intros [= <- <-].
  rewrite (string_app_nil_r a'). rewrite taken_starts in Hu.
  apply taken_dot_one_line in Ha.
  repeat split; try assumption.
  intros ->. simpl in Hlen. lia.
Qed.

Lemma parseUserid_complete (u a : string) :
  u <> EmptyString ->
  all_chars not_at u = true ->
  one_line a ->
  parseUserid ("acct:" ++ u ++ "@" ++ a)%string
  = Some {| username := u; authority := a |}.
Proof.
  intros Hne Hu Ha. unfold parseUserid, acct_re. cbn.
  rewrite (greedy_takes_all (starts not_at) 1 _ u EmptyString (String "@" a) 0 [u; a]).
  - reflexivity.
  - now rewrite taken_starts.
  - reflexivity.
  - destruct u; [congruence | simpl; lia].
  - cbn.
    rewrite <- (string_app_nil_r a) at 1.
    apply greedy_takes_all;
      [now apply taken_dot_one_line | exact I | lia | reflexivity].
Qed.

(** X5. [parseUserid] returns a user name and an authority exactly for
    the strings made of [acct:], a user name that is not empty and
    holds no at sign, an at sign, and an authority that holds no line
    terminator: no line feed, no carriage return, no line separator
    U+2028 and no paragraph separator U+2029 (it may hold further at
    signs, and may be empty); on every other string it throws. *)
Theorem parseUserid_spec :
  forall (s u a : string),
    parseUserid s = Some {| username := u; authority := a |}
    <-> (s = ("acct:" ++ u ++ "@" ++ a)%string
         /\ u <> EmptyString
         /\ all_chars not_at u = true
         /\ one_line a).
Proof.
  intros s u a. split.
  - apply parseUserid_sound.
  - intros (-> & Hne & Hu & Ha). now apply parseUserid_complete.
Qed.

Example parseUserid_account :
  parseUserid "acct:jim@hypothes.is"
  = Some {| username := "jim"; authority := "hypothes.is" |}.
Proof. reflexivity. Qed.

Example parseUserid_line_separator :
  parseUserid ("acct:jim@a" ++ LS ++ "b") = None.
Proof. reflexivity. Qed.

Example parseUserid_first_at_sign :
  parseUserid "acct:jim@example.org@elsewhere"
  = Some {| username := "jim"; authority := "example.org@elsewhere" |}.
Proof. reflexivity. Qed.

(** X6. [parseUserid] throws on every string that does not start with
    [acct:], on every string without an at sign, and on every string
    whose at sign follows [acct:] at once. *)
Theorem parseUserid_throws :
  forall s : string,
    (String.prefix "acct:" s = false
     \/ all_chars not_at s = true
     \/ String.prefix "acct:@" s = true) ->
    parseUserid s = None.
Proof.
  intros s H.
  destruct (parseUserid s) as [[u a]|] eqn:Hp; [|reflexivity].
  apply parseUserid_sound in Hp.
  destruct Hp as (-> & Hne & Hu & Ha).
  destruct H as [H | [H | H]].
  - exfalso. destruct u as [|c u]; [congruence|]. cbn in H. discriminate H.
  - exfalso. rewrite !all_chars_app in H.
    change (all_chars not_at ("@" ++ a)%string) with false in H.
    rewrite !andb_false_r in H. discriminate H.
  - destruct u as [|c u]; [congruence|].
    cbn in Hu. apply andb_true_iff in Hu as [Hc _].
    unfold not_at in Hc. exfalso.
    apply String.prefix_correct in H. cbn in H. injection H as ->.
    cbv in Hc. discriminate Hc.
Qed.

Lemma parseUserid_throws_witness : parseUserid "jim@hypothes.is" = None.
Proof. apply parseUserid_throws. left. reflexivity. Defined.

(** *** isPrivate, isInGroup *)

Lemma index_prefix (needle s : string) :
  String.prefix needle s = true -> String.index 0 needle s = Some 0.
Proof.
  intros H. destruct s as [|c s]; simpl.
  - destruct needle; [reflexivity | discriminate].
  - simpl in H. now rewrite H.
Qed.

(** [indexOf] is 0, the one result that counts as false, exactly on a
    prefix. *)
Lemma string_indexOf_truthy (s needle : string) :
  truthy (VNum (string_indexOf s needle)) = negb (String.prefix needle s).
Proof.
  unfold string_indexOf, truthy.
  destruct (String.prefix needle s) eqn:Hp.
  - now rewrite (index_prefix _ _ Hp).
  - destruct (String.index 0 needle s) as [n|] eqn:Hi; [|reflexivity].
    destruct n as [|n]; [|reflexivity].
    apply String.index_correct1 in Hi. apply String.prefix_correct in Hi. congruence.
Qed.

Lemma array_some_strings (rt : Runtime) (needle : string) (ps : list string) :
  array_some (fun p => i <~ indexOf rt p needle ;; Ok (truthy (VNum i)))
    (map VStr ps)
  = Ok (existsb (fun p => negb (String.prefix needle p)) ps).
Proof.
  induction ps as [|p ps IH]; cbn [map array_some existsb]; [reflexivity|].
  unfold indexOf at 1. cbn [and_then]. rewrite string_indexOf_truthy.
  destruct (String.prefix needle p); cbn [negb orb]; [exact IH | reflexivity].
Qed.

Lemma negb_existsb_negb {A : Type} (f : A -> bool) (l : list A) :
  negb (existsb (fun x => negb (f x)) l) = forallb f l.
Proof.
  induction l as [|x l IH]; simpl; [reflexivity|].
  rewrite negb_orb, negb_involutive. now rewrite IH.
Qed.

Lemma none_without_strings (rt : Runtime) (needle : string) (ann : value)
    (ps : list string) :
  reads rt ann ps ->
  none_without rt needle ann = Ok (forallb (String.prefix needle) ps).
Proof.
  intros (permissions & Hp & Hr). unfold none_without, prop.
  rewrite Hp. simpl. rewrite Hr. simpl.
  rewrite array_some_strings. simpl. now rewrite negb_existsb_negb.
Qed.

Lemma world_prefix_is_group_prefix (p : string) :
  String.prefix "group:__world__" p = true -> String.prefix "group:" p = true.
Proof.
  intros H. apply prefix_app in H. destruct H as (r & ->).
  apply prefix_app. now exists ("__world__" ++ r)%string.
Qed.

(** X7. For an annotation whose read permissions are strings,
    [isPrivate] is true exactly when every one of them starts with
    [group:] (so also when there is none), and [isInGroup] exactly when
    every one of them starts with [group:__world__]: a permission such
    as [acct:...] makes both false, and whatever [isInGroup] accepts
    [isPrivate] accepts too. *)
Theorem visibility_of_string_permissions :
  forall (rt : Runtime) (ann : value) (ps : list string),
    reads rt ann ps ->
    isPrivate rt ann = Ok (forallb (String.prefix "group:") ps)
    /\ isInGroup rt ann = Ok (forallb (String.prefix "group:__world__") ps)
    /\ (isInGroup rt ann = Ok true -> isPrivate rt ann = Ok true).
Proof.
  intros rt ann ps Hr. unfold isPrivate, isInGroup.
  rewrite !(none_without_strings rt _ ann ps Hr).
  repeat split. intros [= H]. f_equal.
  apply forallb_forall. intros p Hp.
  apply world_prefix_is_group_prefix.
  now apply (proj1 (forallb_forall _ _) H).
Qed.

Lemma visibility_of_string_permissions_witness :
  let ann := VObj [("permissions", VObj [("read", VArr [VStr "acct:jim@hypothes.is"])])] in
  isPrivate bare ann = Ok false
  /\ isInGroup bare ann = Ok false
  /\ (isInGroup bare ann = Ok true -> isPrivate bare ann = Ok true).
Proof.
  apply (visibility_of_string_permissions bare
           (VObj [("permissions", VObj [("read", VArr [VStr "acct:jim@hypothes.is"])])])
           ["acct:jim@hypothes.is"]).
  eexists. split; reflexivity.
Defined.

(** *** The statistics *)

Lemma array_filter_length (f : value -> result bool) (xs : list value) :
  forall l, array_filter f xs = Ok l -> List.length l <= List.length xs.
Proof.
  induction xs as [|x xs IH]; simpl; intros l H.
  - injection H as <-. simpl. lia.
  - destruct (f x) as [b| |]; simpl in H; try discriminate.
    destruct (array_filter f xs) as [l'| |]; simpl in H; try discriminate.
    injection H as <-. specialize (IH l' eq_refl). destruct b; simpl; lia.
Qed.

Lemma array_filter_answers (f : value -> result bool) (xs : list value) :
  forall l, array_filter f xs = Ok l ->
            forall x, In x xs -> exists b, f x = Ok b.
Proof.
  induction xs as [|y xs IH]; simpl; intros l H x Hin; [contradiction|].
  destruct (f y) as [b| |] eqn:Hy; simpl in H; try discriminate.
  destruct (array_filter f xs) as [l'| |]; simpl in H; try discriminate.
  destruct Hin as [<- | Hin]; [now exists b | now apply (IH l' eq_refl)].
Qed.

Lemma array_filter_reads (rt : Runtime) (needle : string)
    (anns : list value) (pss : list (list string)) :
  Forall2 (reads rt) anns pss ->
  exists l,
    array_filter (none_without rt needle) anns = Ok l
    /\ List.length l = List.length (filter (forallb (String.prefix needle)) pss).
Proof.
  induction 1 as [|ann ps anns pss Hr _ (l & Hl & Hlen)]; simpl.
  - now exists [].
  - rewrite (none_without_strings rt needle ann ps Hr). simpl. rewrite Hl. simpl.
    destruct (forallb (String.prefix needle) ps); eexists; split; try reflexivity;
      simpl; now rewrite Hlen.
Qed.

Lemma filter_length_mono {A : Type} (f g : A -> bool) (l : list A) :
  (forall x, f x = true -> g x = true) ->
  List.length (filter f l) <= List.length (filter g l).
Proof.
  intros H. induction l as [|x l IH]; simpl; [lia|].
  destruct (f x) eqn:Hf.
  - rewrite (H x Hf). simpl. lia.
  - destruct (g x); simpl; lia.
Qed.

(** X8. For annotations whose read permissions are strings, the
    statistics are: the number of annotations, the number of those
    whose read permissions all start with [group:], and the number of
    those whose read permissions all start with [group:__world__]; the
    third is at most the second, and the second at most the first. *)
Theorem annotation_stats_of_string_permissions :
  forall (rt : Runtime) (anns : list value) (pss : list (list string)),
    Forall2 (reads rt) anns pss ->
    exists s,
      annotation_stats rt anns = Ok s
      /\ total s = List.length anns
      /\ privateTotal s
         = List.length (filter (forallb (String.prefix "group:")) pss)
      /\ groupTotal s
         = List.length (filter (forallb (String.prefix "group:__world__")) pss)
      /\ groupTotal s <= privateTotal s <= total s.
Proof.
  intros rt anns pss H. unfold annotation_stats, isPrivate, isInGroup.
  destruct (array_filter_reads rt "group:" anns pss H) as (lp & Hp & Hlp).
  destruct (array_filter_reads rt "group:__world__" anns pss H) as (lg & Hg & Hlg).
  change (fun ann => none_without rt "group:" ann) with (none_without rt "group:").
  change (fun ann => none_without rt "group:__world__" ann)
    with (none_without rt "group:__world__").
  rewrite Hp. simpl. rewrite Hg. simpl.
  eexists. split; [reflexivity|]. simpl.
  split; [reflexivity|]. split; [exact Hlp|]. split; [exact Hlg|].
  rewrite Hlp, Hlg. split.
  - apply filter_length_mono. intros ps Hps.
    apply forallb_forall. intros p Hin. apply world_prefix_is_group_prefix.
    now apply (proj1 (forallb_forall _ _) Hps).
  - rewrite (Forall2_length H). apply filter_length_le.
Qed.

Lemma annotation_stats_of_string_permissions_witness :
  exists s,
    annotation_stats bare sample_annotations = Ok s
    /\ total s = List.length sample_annotations
    /\ privateTotal s
       = List.length (filter (forallb (String.prefix "group:")) sample_permissions)
    /\ groupTotal s
       = List.length (filter (forallb (String.prefix "group:__world__"))
                        sample_permissions)
    /\ groupTotal s <= privateTotal s <= total s.
Proof.
  apply (annotation_stats_of_string_permissions bare sample_annotations
           sample_permissions).
  repeat constructor; eexists; split; reflexivity.
Defined.

Example sample_statistics :
  annotation_stats bare sample_annotations
  = Ok {| total := 3; privateTotal := 2; groupTotal := 1 |}.
Proof. reflexivity. Qed.

Lemma none_without_unreadable (rt : Runtime) (needle : string) (ann : value) :
  unreadable rt ann -> none_without rt needle ann = Raise TypeError.
Proof.
  unfold none_without, prop, call_other.
  intros [Hp | (permissions & Hp & [Hr | [Hr | Hr]])]; rewrite Hp; simpl;
    try reflexivity; rewrite Hr; reflexivity.
Qed.

(** X9. Statistics, when there are any, count no more private and no
    more group annotations than there are annotations; and there are
    none when one of the annotations has no [permissions] or no
    [permissions.read]: [isPrivate] throws a TypeError on it. *)
Theorem annotation_stats_need_permissions :
  forall (rt : Runtime) (anns : list value),
    (forall s, annotation_stats rt anns = Ok s ->
               total s = List.length anns
               /\ privateTotal s <= total s
               /\ groupTotal s <= total s)
    /\ (forall ann, In ann anns -> unreadable rt ann ->
                    isPrivate rt ann = Raise TypeError
                    /\ forall s, annotation_stats rt anns <> Ok s).
Proof.
  intros rt anns. split.
  - intros s H. unfold annotation_stats in H.
    destruct (array_filter (isPrivate rt) anns) as [lp| |] eqn:Hp; simpl in H;
      try discriminate.
    destruct (array_filter (isInGroup rt) anns) as [lg| |] eqn:Hg; simpl in H;
      try discriminate.
    injection H as <-. simpl.
    split; [reflexivity|]. split; now eapply array_filter_length; eauto.
  - intros ann Hin Hbad.
    assert (Hthrow : isPrivate rt ann = Raise TypeError)
      by now apply none_without_unreadable.
    split; [exact Hthrow|]. intros s H. unfold annotation_stats in H.
    destruct (array_filter (isPrivate rt) anns) as [lp| |] eqn:Hp; simpl in H;
      try discriminate.
    destruct (array_filter_answers _ _ _ Hp ann Hin) as (b & Hb). congruence.
Qed.

Lemma annotation_stats_need_permissions_witness :
  isPrivate bare (VObj [("id", VStr "a1")]) = Raise TypeError
  /\ forall s, annotation_stats bare [VObj [("id", VStr "a1")]] <> Ok s.
Proof.
  apply (proj2 (annotation_stats_need_permissions bare [VObj [("id", VStr "a1")]])
           (VObj [("id", VStr "a1")])).
  - left. reflexivity.
  - right. exists VUndef. split; [reflexivity | left; reflexivity].
Defined.

(** *** _login *)

Section Settles.

Context {S : Type}.
Variable rt : Runtime.
Variable serve : S -> Request -> response * S.

Lemma settles_ret {A : Type} (a : A) : settles (S := S) (ret a).
Proof. intros w. discriminate. Qed.

Lemma settles_or_TypeError {A : Type} (o : option A) :
  settles (S := S) (or_TypeError o).
Proof. intros w. destruct o; discriminate. Qed.

Lemma settles_self : settles (@self S).
Proof. intros w. discriminate. Qed.

Lemma settles_fetch_json (r : Request) : settles (fetch_json serve r).
Proof.
  intros w. unfold fetch_json.
  destruct (serve (server w) r) as [[| |v] s']; discriminate.
Qed.

Lemma settles_bind {A B : Type} (m : @M S A) (f : A -> @M S B) :
  settles m -> (forall a, settles (f a)) -> settles (bind m f).
Proof.
  intros Hm Hf w. unfold bind. specialize (Hm w).
  destruct (m w) as [[a|e|] w']; simpl in *.
  - apply Hf.
  - discriminate.
  - now elim Hm.
Qed.

Lemma settles_walk (name : string) (path : list string) :
  forall table, settles (walk (S := S) rt name table path).
Proof.
  induction path as [|seg rest IH]; intros table; simpl.
  - apply settles_ret.
  - apply settles_bind; [apply settles_or_TypeError|]. intros v.
    destruct (truthy v); simpl; [apply IH|]. intros w. discriminate.
Qed.

Lemma settles_append_params (params : list (string * value)) :
  settles (append_params (S := S) rt params).
Proof.
  induction params as [|[k v] rest IH]; simpl.
  - apply settles_ret.
  - apply settles_bind; [apply settles_or_TypeError|]. intros s.
    apply settles_bind; [exact IH|]. intros q. apply settles_ret.
Qed.

Lemma settles_authorization (tok : value) :
  settles (authorization (S := S) rt tok).
Proof.
  unfold authorization. destruct (truthy tok).
  - apply settles_bind; [apply settles_or_TypeError|]. intros s. apply settles_ret.
  - apply settles_ret.
Qed.

(** [request] returns or throws: it has no loop and waits for nothing
    but the one fetch. *)
Lemma settles_request (name : string) (data : value) (params : list (string * value)) :
  settles (request rt serve name data params).
Proof.
  unfold request, dispatch.
  repeat first
    [ apply settles_fetch_json
    | apply settles_bind; [ first [ apply settles_self
                                  | apply settles_walk
                                  | apply settles_authorization
                                  | apply settles_or_TypeError
                                  | apply settles_append_params ] | intros ? ] ].
Qed.

End Settles.



Example demo_page_state :
  state demo_page
  = {| clientId := VNull; isLoggedIn := true; authorizing := false; fetching := false;
       profile := VObj [("userid", VStr "acct:jim@hypothes.is"); ("groups", VArr [])];
       error := None;
       annotationStats := Some {| total := 3; privateTotal := 2; groupTotal := 1 |} |}.
Proof. reflexivity. Qed.

(** *** The client before login, and from login to request *)

(** X11. On a client that has not logged in, [request] and [fetchAll]
    both fail with a TypeError before anything is sent, whatever the
    method string. *)
Theorem new_client_cannot_request :
  forall (rt : Runtime) (S : Type) (serve : S -> Request -> response * S)
         (service name : string) (data : value) (params : list (string * value))
         (fuel : nat) (s : S) (tr : list event),
    let w := {| this := new_client service; server := s; trace := tr |} in
    request rt serve name data params w = (Throws TypeError, w)
    /\ fetchAll rt serve (Datatypes.S fuel) w = (Throws TypeError, w).
Proof.
  intros rt S serve service name data params fuel s tr w.
  split.
  - now apply request_without_table.
  - unfold fetchAll. rewrite fetchAll_loop_round. cbn [again List.length].
    now rewrite request_without_table.
Qed.

Section AfterLogin.

Context {S : Type}.
Variable rt : Runtime.
Variable serve : S -> Request -> response * S.

(** What [login] returns is the token it has stored. *)
Lemma login_returns_stored_token (id origin : string) (messages : list value)
    (w w1 : @World S) (tok : value) :
  login rt serve id origin messages w = (Returns tok, w1) ->
  token (this w1) = tok.
Proof.
  rewrite login_unfold.
  destruct (resolved (listen rt messages)) as [data|]; [|discriminate].
  intros H.
  destruct (exchange_cases rt serve data (opened rt id origin messages w))
    as (Hret & _).
  rewrite H in Hret. simpl in Hret.
  destruct (Hret tok eq_refl) as (a & t & s1 & d & l & _ & _ & _ & _ & ->).
  reflexivity.
Qed.

End AfterLogin.



(** X13. An entry of the route table that is there but is [null],
    [false], [0] or the empty string is taken for a missing one:
    [request] fails with Unknown Method, naming the method string in
    full, and nothing is sent. *)
Theorem request_falsy_entry :
  forall (rt : Runtime) (S : Type) (serve : S -> Request -> response * S)
         (name seg : string) (prefix rest : list string)
         (props : list (string * value)) (v data : value)
         (params : list (string * value)) (w : @World S),
    split "." name = prefix ++ seg :: rest ->
    descend (links (this w)) prefix = Some (VObj props) ->
    assoc seg props = Some v ->
    truthy v = false ->
    request rt serve name data params w
    = (Throws (Error ("Unknown method " ++ name)%string), w).
Proof.
  intros rt S serve name seg prefix rest props v data params w Hs Hd Hown Hv.
  unfold request, bind at 1 2, self. rewrite Hs.
  rewrite (walk_app rt name prefix (seg :: rest) _ _ w Hd eq_refl).
  simpl. unfold bind, or_TypeError, ret, get, own.
  now rewrite Hown, Hv.
Qed.

Lemma request_falsy_entry_witness :
  let w := start {| serviceUrl := "http://localhost:5000"; token := VStr "tok";
                    links := VObj [("search", VNull)] |} tt in
  request bare (search_service [] 1000) "search" VNull [] w
  = (Throws (Error "Unknown method search"), w).
Proof.
  apply (request_falsy_entry bare unit (search_service [] 1000) "search" "search"
           [] [] [("search", VNull)] VNull VNull []
           (start {| serviceUrl := "http://localhost:5000"; token := VStr "tok";
                     links := VObj [("search", VNull)] |} tt));
    reflexivity.
Defined.

(** *** fetchAll against any service *)

Import Runs.



Section Pages.

Context {S : Type}.
Variable rt : Runtime.
Variable serve : S -> Request -> response * S.

(** What the loop returns is what it held, followed by the pages it was
    served, in order; and it asked for each page at the number of rows
    it held by then. *)
Lemma loop_returns_pages (fuel : nat) :
  forall (anns : list value) (total : value) (w w' : @World S) (l : list value),
    fetchAll_loop rt serve fuel anns total w = (Returns l, w') ->
    exists reqs,
      trace w' = trace w ++ map Fetch reqs
      /\ List.length (pages_served rt serve (server w) reqs) = List.length reqs
      /\ l = anns ++ List.concat (pages_served rt serve (server w) reqs)
      /\ running_offsets (List.length anns) reqs
           (pages_served rt serve (server w) reqs).
Proof.
  induction fuel as [|fuel IH]; intros anns total w w' l H.
  - cbn [fetchAll_loop] in H. unfold more, bind, or_TypeError in H.
    destruct (again rt (List.length anns) total) as [[|]|]; try discriminate.
    injection H as <- <-. exists []. simpl.
    rewrite !app_nil_r. repeat split.
  - rewrite fetchAll_loop_round in H.
    destruct (again rt (List.length anns) total) as [[|]|]; try discriminate.
    + destruct (search_call_shape rt serve (List.length anns) w)
        as [(e & He)|(r & Hq & Hr)]; cbv zeta in *.
      * rewrite He in H. discriminate.
      * rewrite Hr in H. unfold fetch_json in H.
        destruct (serve (server w) r) as [[| |b] s'] eqn:Hserve; try discriminate.
        destruct (get rt b "total") as [total'|]; [|discriminate].
        destruct (get rt b "rows") as [rows|] eqn:Hrows; [|discriminate].
        destruct (spread rows) as [page|] eqn:Hpage; [|discriminate].
        apply IH in H. cbn [server trace] in H.
        destruct H as (reqs & Htrace & Hlen & Hl & Hoff).
        exists (r :: reqs). cbn [pages_served map].
        rewrite Hserve, Hrows, Hpage. cbn [List.length List.concat running_offsets].
        split; [now rewrite Htrace, <- app_assoc|].
        split; [now rewrite Hlen|].
        split; [now rewrite Hl, <- app_assoc|].
        split; [exact Hq|]. now rewrite length_app in Hoff.
    + injection H as <- <-. exists []. simpl.
      rewrite !app_nil_r. repeat split.
Qed.

End Pages.

(** X15. Whatever the service, when [fetchAll] returns, it returns the
    pages of rows it was served, joined in the order of the fetches,
    nothing dropped and nothing added; every fetch it made was answered
    with a page; and each fetch asked for the offset that is the number
    of rows received before it, with limit 1000. *)
Theorem fetchAll_returns_pages :
  forall (rt : Runtime) (S : Type) (serve : S -> Request -> response * S)
         (fuel : nat) (w w' : @World S) (l : list value),
    fetchAll rt serve fuel w = (Returns l, w') ->
    exists reqs,
      trace w' = trace w ++ map Fetch reqs
      /\ List.length (pages_served rt serve (server w) reqs) = List.length reqs
      /\ l = List.concat (pages_served rt serve (server w) reqs)
      /\ running_offsets 0 reqs (pages_served rt serve (server w) reqs).
Proof.
  intros rt S serve fuel w w' l H.
  apply (loop_returns_pages rt serve fuel [] VNull w w' l H).
Qed.

Lemma fetchAll_returns_pages_witness :
  exists reqs,
    trace (snd (fetchAll bare (search_service (records 5) 2) 4 (start logged_in tt)))
    = trace (start logged_in tt) ++ map Fetch reqs
    /\ List.length (pages_served bare (search_service (records 5) 2) tt reqs)
       = List.length reqs
    /\ records 5 = List.concat (pages_served bare (search_service (records 5) 2) tt reqs)
    /\ running_offsets 0 reqs (pages_served bare (search_service (records 5) 2) tt reqs).
Proof.
  apply (fetchAll_returns_pages bare unit (search_service (records 5) 2) 4
           (start logged_in tt)
           (snd (fetchAll bare (search_service (records 5) 2) 4 (start logged_in tt)))
           (records 5)).
  reflexivity.
Defined.

(** *** The fetches of login *)

Section ExchangeFetches.

Context {S : Type}.
Variable rt : Runtime.
Variable serve : S -> Request -> response * S.

Lemma exchange_fetches (data : value) (w : @World S) :
  let r := exchange rt serve data w in
  let svc := serviceUrl (this w) in
  exists fetches,
    trace (snd r) = trace w ++ map Fetch fetches
    /\ (fetches = []
        \/ (exists a, fetches = [token_request svc a])
        \/ (exists a t s1,
              fetches = [token_request svc a; discovery_request svc]
              /\ serve (server w) (token_request svc a) = (Body t, s1)
              /\ get rt t "access_token" <> None))
    /\ (forall v, fst r = Returns v ->
                  exists a, fetches = [token_request svc a; discovery_request svc]).
Proof.
  cbv zeta. run.
  destruct (get rt data "code") as [code|]; cbn [fst snd trace];
    [|exists []; rewrite app_nil_r; repeat split; try (now left); discriminate].
  destruct (get rt data "state") as [st|]; cbn [fst snd trace];
    [|exists []; rewrite app_nil_r; repeat split; try (now left); discriminate].
  destruct (to_string rt code) as [a|]; cbn [fst snd trace];
    [|exists []; rewrite app_nil_r; repeat split; try (now left); discriminate].
  destruct (serve (server w) (token_request (serviceUrl (this w)) a))
    as [[| |t] s1] eqn:Htok; cbn [fst snd trace this server];
    try (exists [token_request (serviceUrl (this w)) a];
         repeat split; try discriminate; right; left; now exists a).
  destruct (get rt t "access_token") as [tok|] eqn:Hacc;
    cbv beta iota; cbn [fst snd trace this server];
    [|exists [token_request (serviceUrl (this w)) a];
      repeat split; try discriminate; right; left; now exists a].
  exists [token_request (serviceUrl (this w)) a; discovery_request (serviceUrl (this w))].
  assert (Htwo : exists a0 t0 s0,
             [token_request (serviceUrl (this w)) a;
              discovery_request (serviceUrl (this w))]
             = [token_request (serviceUrl (this w)) a0;
                discovery_request (serviceUrl (this w))]
             /\ serve (server w) (token_request (serviceUrl (this w)) a0)
                = (Body t0, s0)
             /\ get rt t0 "access_token" <> None).
  { exists a, t, s1. repeat split; [exact Htok | congruence]. }
  destruct (serve s1 (discovery_request (serviceUrl (this w))))
    as [[| |d] s2]; cbv beta iota; cbn [fst snd trace this server map].
  - split; [now rewrite <- app_assoc|]. split; [right; right; exact Htwo|]. discriminate.
  - split; [now rewrite <- app_assoc|]. split; [right; right; exact Htwo|]. discriminate.
  - destruct (get rt d "links") as [l|]; cbv beta iota;
      cbn [fst snd trace this server map].
    + split; [now rewrite <- app_assoc|]. split; [right; right; exact Htwo|].
      intros v _. now exists a.
    + split; [now rewrite <- app_assoc|]. split; [right; right; exact Htwo|].
      discriminate.
Qed.

End ExchangeFetches.

(** X16. [login] fetches nothing before an authorization response has
    arrived, and then at most twice: the token exchange first, and the
    discovery only after the token exchange has delivered a body that
    is not [null]; when [login] resolves it has made exactly these two
    fetches. *)
Theorem login_fetches :
  forall (rt : Runtime) (S : Type) (serve : S -> Request -> response * S)
         (id origin : string) (messages : list value) (w : @World S),
    let r := login rt serve id origin messages w in
    let svc := serviceUrl (this w) in
    exists fetches,
      trace (snd r) = trace (opened rt id origin messages w) ++ map Fetch fetches
      /\ (fetches = []
          \/ (exists a, fetches = [token_request svc a])
          \/ (exists a t s1,
                fetches = [token_request svc a; discovery_request svc]
                /\ serve (server w) (token_request svc a) = (Body t, s1)
                /\ get rt t "access_token" <> None))
      /\ (resolved (listen rt messages) = None -> fetches = [])
      /\ (forall v, fst r = Returns v ->
                    exists a, fetches = [token_request svc a; discovery_request svc]).
Proof.
  intros rt S serve id origin messages w. cbv zeta.
  rewrite login_unfold.
  destruct (resolved (listen rt messages)) as [data|].
  - destruct (exchange_fetches rt serve data (opened rt id origin messages w))
      as (fetches & Htrace & Hshape & Hret).
    exists fetches. split; [exact Htrace|]. split; [exact Hshape|].
    split; [discriminate | exact Hret].
  - exists []. simpl. rewrite app_nil_r.
    repeat split; [now left | discriminate].
Qed.

(** *** The client id in the storage *)

(** X17. The client id that [_clientIdChanged] has stored is the one a
    component constructed later over the same storage starts with,
    the last one stored when there were several; over a storage without
    the item the component starts with [null]. *)
Theorem clientId_persists :
  forall (S : Type) (a : Page S) (id1 id2 : string) (s : S),
    clientId (state (_clientIdChanged id2 a)) = VStr id2
    /\ clientId (state (new_App (storage (_clientIdChanged id2 a)) s)) = VStr id2
    /\ clientId (state (new_App
                          (storage (_clientIdChanged id2 (_clientIdChanged id1 a))) s))
       = VStr id2
    /\ clientId (state (new_App [] s)) = VNull
    /\ world (_clientIdChanged id2 a) = world a.
Proof.
  intros S a id1 id2 s. unfold new_App, _clientIdChanged, getItem, setItem.
  cbn [state storage clientId world assoc].
  rewrite String.eqb_refl. repeat split.
Qed.

(** *** _logout *)

(** X18. [_logout] marks the page as logged out and clears the profile
    and the statistics, but keeps the client id, the storage and the
    last error; it sends nothing, and leaves the client without token and
    without route table, so that every [request] after it fails with a
    TypeError before anything is sent; a second [_logout] changes
    nothing. *)
Theorem _logout_resets :
  forall (rt : Runtime) (S : Type) (serve : S -> Request -> response * S)
         (a : Page S) (name : string) (data : value)
         (params : list (string * value)),
    let b := _logout a in
    (isLoggedIn (state b) = false
     /\ profile (state b) = VNull
     /\ annotationStats (state b) = None)
    /\ (clientId (state b) = clientId (state a)
        /\ error (state b) = error (state a)
        /\ storage b = storage a)
    /\ (server (world b) = server (world a)
        /\ trace (world b) = trace (world a)
        /\ serviceUrl (this (world b)) = serviceUrl (this (world a)))
    /\ request rt serve name data params (world b) = (Throws TypeError, world b)
    /\ _logout b = b.
Proof.
  intros rt S serve a name data params. cbv zeta. unfold _logout.
  cbn [state storage world isLoggedIn profile annotationStats clientId error
       authorizing fetching].
  rewrite !logout_world. cbn [snd this server trace serviceUrl token links].
  repeat split.
  now apply request_without_table.
Qed.

(** *** render *)

Lemma get_of_truthy (rt : Runtime) (v : value) (k : string) :
  truthy v = true -> exists x, get rt v k = Some x.
Proof. destruct v; simpl; try discriminate; eauto. Qed.

Lemma get_of_get (rt : Runtime) (v : value) (k k' : string) :
  get rt v k <> None -> exists x, get rt v k' = Some x.
Proof. destruct v; simpl; try congruence; eauto. Qed.

Lemma messages_offer_nothing (l : list string) :
  flat_map handlers (map (fun m => Child (VStr m)) l) = [].
Proof. induction l as [|m l IH]; simpl; [reflexivity | exact IH]. Qed.

Lemma messages_texts (l : list string) :
  flat_map texts (map (fun m => Child (VStr m)) l) = l.
Proof. induction l as [|m l IH]; simpl; [reflexivity | now rewrite IH]. Qed.

Lemma group_item_offers_nothing (rt : Runtime) (gs : list value) :
  forall items, array_map (group_item rt) gs = Ok items ->
                flat_map handlers items = [].
Proof.
  induction gs as [|g gs IH]; simpl; intros items H.
  - now injection H as <-.
  - unfold group_item at 1, prop in H.
    destruct (get rt g "url") as [href|]; simpl in H; [|discriminate].
    destruct (get rt g "name") as [name|]; simpl in H; [|discriminate].
    destruct (array_map (group_item rt) gs) as [l| |]; simpl in H; try discriminate.
    injection H as <-. simpl. now apply IH.
Qed.

Lemma call_other_never_Ok {A : Type} (rt : Runtime) (v : value) (name : string) (x : A) :
  call_other rt v name <> Ok x.
Proof.
  unfold call_other. destruct (get rt v name) as [[| | | | | | |[|] h]|]; discriminate.
Qed.

Lemma group_items_offer_nothing (rt : Runtime) (groups : value) (items : list vnode) :
  group_items rt groups = Ok items -> flat_map handlers items = [].
Proof.
  unfold group_items. intros H.
  destruct groups; try (now apply call_other_never_Ok in H).
  destruct (array_filter _ xs) as [shown| |]; simpl in H; try discriminate.
  now apply group_item_offers_nothing in H.
Qed.

Lemma _renderProfileInfo_offers (rt : Runtime) (st : State) (t : vnode) :
  _renderProfileInfo rt st = Ok t -> handlers t = [ClickLogout].
Proof.
  unfold _renderProfileInfo.
  destruct (prop rt (profile st) "userid") as [userid| |]; simpl; try discriminate.
  destruct (prop rt (profile st) "groups") as [groups| |]; simpl; try discriminate.
  destruct (parseUserid_of rt userid) as [account| |]; simpl; try discriminate.
  destruct (group_items rt groups) as [items| |] eqn:Hitems; simpl; try discriminate.
  intros [= <-]. simpl.
  rewrite (group_items_offer_nothing rt groups items Hitems).
  now destruct (annotationStats st).
Qed.

(** X19. What the rendered page offers to do: the login form (submit,
    and the input of the client id) exactly when the page is neither
    logged in nor authorizing, and the logout button exactly when there
    is a profile; nothing else in the page calls into the component. *)
Theorem render_offers :
  forall (rt : Runtime) (text : exn -> string) (st : State) (t : vnode),
    render rt text st = Ok t ->
    handlers t
    = ((if negb (isLoggedIn st) && negb (authorizing st)
        then [SubmitLogin; InputClientId] else [])
       ++ (if truthy (profile st) then [ClickLogout] else []))%list.
Proof.
  intros rt text st t. unfold render.
  destruct (truthy (profile st)).
  - destruct (_renderProfileInfo rt st) as [info| |] eqn:Hinfo; simpl; try discriminate.
    intros [= <-]. simpl. rewrite messages_offer_nothing.
    rewrite (_renderProfileInfo_offers rt st info Hinfo).
    destruct (negb (isLoggedIn st) && negb (authorizing st)); reflexivity.
  - simpl. intros [= <-]. simpl. rewrite messages_offer_nothing.
    destruct (negb (isLoggedIn st) && negb (authorizing st)); reflexivity.
Qed.

Lemma render_offers_witness :
  handlers demo_view
  = ((if negb (isLoggedIn (state demo_page)) && negb (authorizing (state demo_page))
      then [SubmitLogin; InputClientId] else [])
     ++ (if truthy (profile (state demo_page)) then [ClickLogout] else []))%list.
Proof.
  apply (render_offers bare (fun _ => EmptyString) (state demo_page) demo_view).
  reflexivity.
Defined.

Lemma render_without_profile (rt : Runtime) (text : exn -> string) (st : State) :
  truthy (profile st) = false ->
  (isLoggedIn st = true \/ authorizing st = true) ->
  render rt text st = Ok (bare_page (render_messages text st)).
Proof.
  intros Hp Hl. unfold render. rewrite Hp. simpl.
  now destruct Hl as [-> | ->]; rewrite ?andb_false_r.
Qed.

(** X20. When no authorization response arrives (the popup is closed,
    or another message has used up the listener), the page that [_login]
    leaves shows the waiting message and nothing else: with no profile
    from before, it has neither the login form nor the logout button. *)
Theorem _login_pending_page :
  forall (rt : Runtime) (text : exn -> string) (S : Type)
         (serve : S -> Request -> response * S)
         (id origin : string) (messages : list value) (fuel : nat)
         (a a' : Page S),
    _login rt serve id origin messages fuel a = Ok a' ->
    resolved (listen rt messages) = None ->
    truthy (profile (state a)) = false ->
    fetching (state a) = false ->
    render rt text (state a') = Ok (bare_page ["Waiting for authorization…"])
    /\ handlers (bare_page ["Waiting for authorization…"]) = [].
Proof.
  intros rt text S serve id origin messages fuel a a' H Hnone Hp Hf.
  split; [|reflexivity].
  unfold _login in H. rewrite login_unfold, Hnone in H. injection H as <-.
  rewrite render_without_profile; cbn [state settle begin_login profile authorizing];
    [|exact Hp | now right].
  unfold render_messages. cbn [error authorizing fetching begin_login].
  now rewrite Hf.
Qed.

Lemma _login_pending_page_witness :
  render bare (fun _ => EmptyString) (state pending_page)
  = Ok (bare_page ["Waiting for authorization…"])
  /\ handlers (bare_page ["Waiting for authorization…"]) = [].
Proof.
  apply (_login_pending_page bare (fun _ => EmptyString) unit demo_service
           "cid" "http://localhost:4000" [] 2 (new_App [] tt) pending_page);
    reflexivity.
Defined.

(** X21. When [login] has resolved and the profile request then fails,
    the page that [_login] leaves counts as logged in and shows the
    message of that error and nothing else: with no profile from
    before, it has neither the login form nor the logout button. *)
Theorem _login_without_profile_page :
  forall (rt : Runtime) (text : exn -> string) (S : Type)
         (serve : S -> Request -> response * S)
         (id origin : string) (messages : list value) (fuel : nat)
         (a a' : Page S) (tok : value) (w1 w2 : @World S) (e : exn),
    _login rt serve id origin messages fuel a = Ok a' ->
    login rt serve id origin messages (world a) = (Returns tok, w1) ->
    request rt serve "profile.read" VNull [] w1 = (Throws e, w2) ->
    truthy (profile (state a)) = false ->
    isLoggedIn (state a') = true
    /\ render rt text (state a')
       = Ok (bare_page [("Error: " ++ message text e)%string])
    /\ handlers (bare_page [("Error: " ++ message text e)%string]) = [].
Proof.
  intros rt text S serve id origin messages fuel a a' tok w1 w2 e H Hl Hr Hp.
  unfold _login in H. rewrite Hl, Hr in H. injection H as <-.
  split; [reflexivity|]. split; [|reflexivity].
  rewrite render_without_profile; [reflexivity | exact Hp | now left].
Qed.

Lemma _login_without_profile_page_witness :
  isLoggedIn (state stranded_page) = true
  /\ render bare (fun _ => EmptyString) (state stranded_page)
     = Ok (bare_page ["Error: Unknown method profile.read"])
  /\ handlers (bare_page ["Error: Unknown method profile.read"]) = [].
Proof.
  apply (_login_without_profile_page bare (fun _ => EmptyString) unit
           routeless_service "cid" "http://localhost:4000" [grant] 2
           (new_App [] tt) stranded_page (VStr "tok")
           (snd (login bare routeless_service "cid" "http://localhost:4000" [grant]
                   (world (new_App [] tt))))
           (snd (login bare routeless_service "cid" "http://localhost:4000" [grant]
                   (world (new_App [] tt))))
           (Error "Unknown method profile.read"));
    reflexivity.
Defined.

(** X22. With a profile whose [userid] is [null] or [undefined] (the
    profile of nobody), or a string that [parseUserid] does not accept,
    [render] throws a TypeError. *)
Theorem render_needs_account :
  forall (rt : Runtime) (text : exn -> string) (st : State) (userid : value),
    truthy (profile st) = true ->
    get rt (profile st) "userid" = Some userid ->
    (userid = VNull \/ userid = VUndef
     \/ exists s, userid = VStr s /\ parseUserid s = None) ->
    render rt text st = Raise TypeError.
Proof.
  intros rt text st userid Hp Hu Hbad. unfold render. rewrite Hp.
  unfold _renderProfileInfo, prop. rewrite Hu.
  destruct (get_of_truthy rt (profile st) "groups" Hp) as (groups & ->).
  cbn [and_then].
  destruct Hbad as [-> | [-> | (s & -> & Hs)]]; simpl; try reflexivity.
  now rewrite Hs.
Qed.

Lemma render_needs_account_witness :
  render bare (fun _ => EmptyString) anonymous_state = Raise TypeError.
Proof.
  apply (render_needs_account bare (fun _ => EmptyString) anonymous_state VNull).
  - reflexivity.
  - reflexivity.
  - now left.
Defined.

Lemma array_filter_total (f : value -> result bool) (xs : list value) :
  Forall (fun x => exists b, f x = Ok b) xs ->
  exists l, array_filter f xs = Ok l /\ incl l xs.
Proof.
  induction 1 as [|x xs (b & Hb) _ (l & Hl & Hin)]; simpl.
  - exists []. split; [reflexivity | apply incl_nil_l].
  - rewrite Hb, Hl. simpl. destruct b; eexists; split; try reflexivity.
    + now apply incl_cons; [left | apply incl_tl].
    + now apply incl_tl.
Qed.

Lemma array_map_total {A : Type} (f : value -> result A) (xs : list value) :
  Forall (fun x => exists y, f x = Ok y) xs ->
  exists l, array_map f xs = Ok l.
Proof.
  induction 1 as [|x xs (y & Hy) _ (l & Hl)]; simpl.
  - now exists [].
  - rewrite Hy, Hl. simpl. now eexists.
Qed.

Lemma group_items_total (rt : Runtime) (gs : list value) :
  Forall (fun g => get rt g "url" <> None) gs ->
  exists items, group_items rt (VArr gs) = Ok items.
Proof.
  intros H. unfold group_items.
  destruct (array_filter_total (fun g => u <~ prop rt g "url" ;; Ok (truthy u)) gs)
    as (shown & -> & Hincl).
  { apply Forall_forall. intros g Hg. unfold prop.
    destruct (get rt g "url") as [u|] eqn:Hu.
    - now exists (truthy u).
    - now elim (proj1 (Forall_forall _ _) H g Hg). }
  cbn [and_then]. apply array_map_total.
  apply Forall_forall. intros g Hg. apply Hincl in Hg.
  pose proof (proj1 (Forall_forall _ _) H g Hg) as Hurl.
  unfold group_item, prop.
  destruct (get_of_get rt g "url" "url" Hurl) as (href & ->).
  destruct (get_of_get rt g "url" "name" Hurl) as (name & ->).
  simpl. now eexists.
Qed.

(** X23. With a profile whose [userid] is a string that [parseUserid]
    accepts and whose [groups] are an array without [null] and
    [undefined], [render] returns a page; the page shows the user name
    that [parseUserid] gives, and shows [Fetching…] for as long as the
    state holds no statistics. *)
Theorem render_profile_shown :
  forall (rt : Runtime) (text : exn -> string) (st : State)
         (s : string) (account : Account) (gs : list value),
    truthy (profile st) = true ->
    get rt (profile st) "userid" = Some (VStr s) ->
    parseUserid s = Some account ->
    get rt (profile st) "groups" = Some (VArr gs) ->
    Forall (fun g => get rt g "url" <> None) gs ->
    exists t,
      render rt text st = Ok t
      /\ In ("Username: " ++ username account)%string (texts t)
      /\ (annotationStats st = None -> In "Fetching…"%string (texts t)).
Proof.
  intros rt text st s account gs Hp Hu Hs Hg Hgs. unfold render. rewrite Hp.
  unfold _renderProfileInfo, prop. rewrite Hu, Hg. cbn [and_then parseUserid_of].
  rewrite Hs. cbn [and_then].
  destruct (group_items_total rt gs Hgs) as (items & ->). cbn [and_then].
  eexists. split; [reflexivity|].
  cbn [texts flat_map]. rewrite messages_texts.
  split.
  - rewrite !in_app_iff. cbn [In]. intuition auto.
  - intros ->. rewrite !in_app_iff. cbn [In texts]. intuition auto.
Qed.

Lemma render_profile_shown_witness :
  exists t,
    render bare (fun _ => EmptyString) (state demo_page) = Ok t
    /\ In "Username: jim"%string (texts t)
    /\ (annotationStats (state demo_page) = None -> In "Fetching…"%string (texts t)).
Proof.
  apply (render_profile_shown bare (fun _ => EmptyString) (state demo_page)
           "acct:jim@hypothes.is"
           {| username := "jim"; authority := "hypothes.is" |} []).
  - reflexivity.
  - reflexivity.
  - reflexivity.
  - reflexivity.
  - constructor.
Defined.
